(** * An in-memory ledger: account entities, transactions and the banking service

    Shallow embedding of the TypeScript sources

      - [domain/models/Account.ts]       (the revision with [companyId])
      - [domain/models/Transaction.ts]
      - [domain/errors/BankingError.ts]
      - [services/BankingService.ts]     (both revisions: with and without
                                          the company check)

    A JavaScript [number] is an IEEE 754 binary64 value; it is embedded as
    Rocq's primitive [float], whose operations are the binary64 operations
    with round-to-nearest-even, exactly those of [+], [-], [<], [<=], [>=]
    on JavaScript numbers.  Decimal literals are read, as in JavaScript, as
    the nearest binary64 value. *)

From Stdlib Require Import ZArith Lia Ascii String Floats.
From stdpp Require Import base option list gmap strings pretty.

Set Warnings "-inexact-float".
Local Open Scope string_scope.

(** JavaScript's [number]. *)
Abbreviation number := float.

(** ** Exceptions

    [BankingError.ts] and the two foreign exceptions the code throws:
    zod's [ZodError] (a list of issues) and the built-in [Error(message)].
    [TypeError] is what JavaScript raises when a method is called through an
    undefined reference. *)

Inductive ZodIssueCode := invalid_type | too_small | too_big | invalid_string.

Record ZodIssue := { code : ZodIssueCode; path : string }.

(** Modelled from the spec: the constructor [CompanyMismatchError], whose
    class is declared in the tenant-aware revision of [BankingError.ts]; the
    tenant-aware [BankingService] throws it and its tests build it as
    [new CompanyMismatchError(expected, actual)].  The other constructors are
    the classes of [BankingError.ts] that the service throws, and the foreign
    exceptions. *)
Inductive Exception :=
  | ZodError (issues : list ZodIssue)
  | Error (message : string)
  | TypeError
  | AccountNotFoundError (accountNumber : string)
  | InsufficientFundsError (accountNumber : string) (amount balance : number)
  | CompanyMismatchError (expected actual : string).

(** ** zod checks used by the two schemas (zod 3)

    [z.string().length(16).regex(/^\d+$/)], [z.number().min(0)] and
    [z.number().positive()], as zod 3 runs them (the test suites expect its
    message "Number must be greater than 0").  [z.number()] rejects [NaN]
    with an [invalid_type] issue and accepts the infinities (there is no
    [.finite()] in either schema); the bound checks are [x < 0] (inclusive
    minimum) and [x <= 0] (exclusive minimum).  Issues are collected over
    all fields. *)

(** Strings are byte strings here and UTF-16 strings in JavaScript: a string
    that passes both checks below is 16 ASCII digits under either reading,
    and a string with any other character fails the regular expression under
    both. *)
Definition isDigit (c : ascii) : bool :=
  (48 <=? nat_of_ascii c)%nat && (nat_of_ascii c <=? 57)%nat.

(** [/^\d+$/.test s] *)
Definition digits_regex (s : string) : bool :=
  negb (String.eqb s "") && forallb isDigit (list_ascii_of_string s).

Definition check_account_number (p s : string) : list ZodIssue :=
  (if (16 <? String.length s)%nat then [ {| code := too_big; path := p |} ]
   else if (String.length s <? 16)%nat then [ {| code := too_small; path := p |} ]
   else [])
  ++ (if digits_regex s then [] else [ {| code := invalid_string; path := p |} ]).

Definition check_min0 (p : string) (x : number) : list ZodIssue :=
  if is_nan x then [ {| code := invalid_type; path := p |} ]
  else if (x <? 0)%float then [ {| code := too_small; path := p |} ]
  else [].

Definition check_positive (p : string) (x : number) : list ZodIssue :=
  if is_nan x then [ {| code := invalid_type; path := p |} ]
  else if (x <=? 0)%float then [ {| code := too_small; path := p |} ]
  else [].

Definition zod_result {A} (issues : list ZodIssue) (a : A) : Exception + A :=
  match issues with
  | [] => inr a
  | _ => inl (ZodError issues)
  end.

(** ** [domain/models/Account.ts] *)

Module AccountEntity.

Record Account := { accountNumber : string; balance : number; companyId : string }.

Definition AccountSchema_parse (input : Account) : Exception + Account :=
  zod_result
    (check_account_number "accountNumber" (accountNumber input)
     ++ check_min0 "balance" (balance input))
    input.

(** The class: one private field holding the parsed record. *)
Record t := { account : Account }.

Definition new (input : Account) : Exception + t :=
  match AccountSchema_parse input with
  | inl e => inl e
  | inr a => inr {| account := a |}
  end.

Definition getAccountNumber (this : t) : string := accountNumber (account this).
Definition getBalance (this : t) : number := balance (account this).
Definition getCompanyId (this : t) : string := companyId (account this).

(** [this.account.balance = b] *)
Definition set_balance (this : t) (b : number) : t :=
  {| account := {| accountNumber := accountNumber (account this);
                   balance := b;
                   companyId := companyId (account this) |} |}.

(** [this.account.balance >= amount] *)
Definition canWithdraw (this : t) (amount : number) : bool :=
  (amount <=? balance (account this))%float.

(** A mutating method maps the object's state to an outcome and the
    object's state when the method returns or throws. *)
Definition withdraw (amount : number) (this : t) : (Exception + unit) * t :=
  if negb (canWithdraw this amount) then (inl (Error "Insufficient funds"), this)
  else (inr tt, set_balance this (balance (account this) - amount)%float).

Definition deposit (amount : number) (this : t) : (Exception + unit) * t :=
  (inr tt, set_balance this (balance (account this) + amount)%float).

End AccountEntity.

(** ** [domain/models/Transaction.ts] *)

Module TransactionEntity.

(** Modelled from the spec: the [companyId] field and its getter belong to
    the tenant-aware revision of [Transaction.ts] (the transfer's optional
    tenant identifier); [FileReaderService] and the tests construct the
    entity with it and the tenant-aware service reads it through
    [getCompanyId].  The three other fields and their checks are those of
    [TransactionSchema]. *)
Record Transaction :=
  { fromAccount : string; toAccount : string; amount : number; companyId : string }.

Definition TransactionSchema_parse (input : Transaction) : Exception + Transaction :=
  zod_result
    (check_account_number "fromAccount" (fromAccount input)
     ++ check_account_number "toAccount" (toAccount input)
     ++ check_positive "amount" (amount input))
    input.

Record t := { transaction : Transaction }.

Definition new (input : Transaction) : Exception + t :=
  match TransactionSchema_parse input with
  | inl e => inl e
  | inr a => inr {| transaction := a |}
  end.

Definition getFromAccount (this : t) : string := fromAccount (transaction this).
Definition getToAccount (this : t) : string := toAccount (transaction this).
Definition getAmount (this : t) : number := amount (transaction this).
Definition getCompanyId (this : t) : string := companyId (transaction this).

End TransactionEntity.

(** ** The service state and its effects

    [private accounts: Map<string, AccountEntity>].  A JavaScript [Map]
    keeps its keys in insertion order; the values are references to mutable
    account objects.  The constructor stores every object under its own
    account number, so two keys never share an object and an object is
    identified by its key: the state below holds, for each key, the current
    state of the object stored under it. *)

Record BankingState :=
  { order : list string;
    accounts : gmap string AccountEntity.t }.

Definition Map_empty : BankingState := {| order := []; accounts := ∅ |}.

(** [this.accounts.set(k, v)]: a new key goes last, an existing key keeps
    its place and gets the new value. *)
Definition Map_set (k : string) (v : AccountEntity.t) (this : BankingState) : BankingState :=
  {| order := match accounts this !! k with
              | Some _ => order this
              | None => order this ++ [k]
              end;
     accounts := <[k := v]> (accounts this) |}.

(** [this.accounts.get(k)] *)
Definition Map_get (k : string) (this : BankingState) : option AccountEntity.t :=
  accounts this !! k.

(** [Array.from(this.accounts.values())] *)
Definition Map_values (this : BankingState) : list AccountEntity.t :=
  omap (fun k => accounts this !! k) (order this).

(** Computations of the service: an outcome (a thrown exception or a value)
    and the state at that point. *)
Definition M (A : Type) : Type := BankingState -> (Exception + A) * BankingState.

Definition ret {A} (a : A) : M A := fun this => (inr a, this).

Definition throw {A} (e : Exception) : M A := fun this => (inl e, this).

Definition bind {A B} (m : M A) (k : A -> M B) : M B :=
  fun this =>
    match m this with
    | (inl e, this') => (inl e, this')
    | (inr a, this') => k a this'
    end.

#[global] Instance M_ret : MRet M := @ret.
#[global] Instance M_bind : MBind M := fun A B k m => bind m k.

(** A method call [ref.method(...)] on the object stored under [ref]: the
    method runs on the object's current state and leaves its new state in
    place. *)
Definition invoke {A} (ref : string)
    (method : AccountEntity.t -> (Exception + A) * AccountEntity.t) : M A :=
  fun this =>
    match accounts this !! ref with
    | Some obj =>
        let '(r, obj') := method obj in
        (r, {| order := order this; accounts := <[ref := obj']> (accounts this) |})
    | None => (inl TypeError, this)
    end.

(** [constructor(initialAccounts)] *)
Definition BankingService_new (initialAccounts : list AccountEntity.t) : BankingState :=
  foldl (fun this a => Map_set (AccountEntity.getAccountNumber a) a this)
        Map_empty initialAccounts.

(** [getAllAccounts()] *)
Definition getAllAccounts : M (list AccountEntity.t) :=
  fun this => (inr (Map_values this), this).

(** ** [services/BankingService.ts], the revision without companies *)

Module BankingService.
Import AccountEntity.

Definition processTransaction (transaction : TransactionEntity.t) : M unit :=
  fun this =>
    let fromAccount := Map_get (TransactionEntity.getFromAccount transaction) this in
    let toAccount := Map_get (TransactionEntity.getToAccount transaction) this in
    match fromAccount, toAccount with
    | Some fromAccount, Some toAccount =>
        if negb (canWithdraw fromAccount (TransactionEntity.getAmount transaction)) then
          throw (InsufficientFundsError (getAccountNumber fromAccount)
                   (TransactionEntity.getAmount transaction)
                   (getBalance fromAccount)) this
        else
          (invoke (TransactionEntity.getFromAccount transaction)
                  (withdraw (TransactionEntity.getAmount transaction)) ;;
           invoke (TransactionEntity.getToAccount transaction)
                  (deposit (TransactionEntity.getAmount transaction))) this
    | None, _ => throw (AccountNotFoundError (TransactionEntity.getFromAccount transaction)) this
    | Some _, None => throw (AccountNotFoundError (TransactionEntity.getToAccount transaction)) this
    end.

Definition getAccountBalance (accountNumber : string) : M number :=
  fun this =>
    match Map_get accountNumber this with
    | None => throw (AccountNotFoundError accountNumber) this
    | Some account => ret (getBalance account) this
    end.

Definition transfer (fromAccountNumber toAccountNumber : string) (amount : number) : M unit :=
  fun this =>
    if (amount <=? 0)%float then throw (Error "Amount must be greater than 0") this
    else
      let fromAccount := Map_get fromAccountNumber this in
      let toAccount := Map_get toAccountNumber this in
      match fromAccount, toAccount with
      | Some fromAccount, Some toAccount =>
          if (getBalance fromAccount <? amount)%float then
            throw (InsufficientFundsError (getAccountNumber fromAccount) amount
                     (getBalance fromAccount)) this
          else
            (invoke fromAccountNumber (withdraw amount) ;;
             invoke toAccountNumber (deposit amount)) this
      | None, _ => throw (AccountNotFoundError fromAccountNumber) this
      | Some _, None => throw (AccountNotFoundError toAccountNumber) this
      end.

End BankingService.

(** ** [services/BankingService.ts], the tenant-aware revision *)

Module TenantBankingService.
Import AccountEntity.

(** JavaScript's [a !== b] on strings. *)
Definition strict_ne (a b : string) : bool := negb (String.eqb a b).

Definition processTransaction (transaction : TransactionEntity.t) : M unit :=
  fun this =>
    let fromAccount := Map_get (TransactionEntity.getFromAccount transaction) this in
    let toAccount := Map_get (TransactionEntity.getToAccount transaction) this in
    match fromAccount, toAccount with
    | Some fromAccount, Some toAccount =>
        if strict_ne (getCompanyId fromAccount) (TransactionEntity.getCompanyId transaction)
           || strict_ne (getCompanyId toAccount) (TransactionEntity.getCompanyId transaction)
        then
          throw (CompanyMismatchError
                   (TransactionEntity.getCompanyId transaction)
                   (if strict_ne (getCompanyId fromAccount)
                                 (TransactionEntity.getCompanyId transaction)
                    then getCompanyId fromAccount
                    else getCompanyId toAccount)) this
        else if negb (canWithdraw fromAccount (TransactionEntity.getAmount transaction)) then
          throw (InsufficientFundsError (getAccountNumber fromAccount)
                   (TransactionEntity.getAmount transaction)
                   (getBalance fromAccount)) this
        else
          (invoke (TransactionEntity.getFromAccount transaction)
                  (withdraw (TransactionEntity.getAmount transaction)) ;;
           invoke (TransactionEntity.getToAccount transaction)
                  (deposit (TransactionEntity.getAmount transaction))) this
    | None, _ => throw (AccountNotFoundError (TransactionEntity.getFromAccount transaction)) this
    | Some _, None => throw (AccountNotFoundError (TransactionEntity.getToAccount transaction)) this
    end.

Definition getAccountBalance (accountNumber companyId : string) : M number :=
  fun this =>
    match Map_get accountNumber this with
    | None => throw (AccountNotFoundError accountNumber) this
    | Some account =>
        if strict_ne (getCompanyId account) companyId then
          throw (CompanyMismatchError companyId (getCompanyId account)) this
        else ret (getBalance account) this
    end.

Definition transfer (fromAccountNumber toAccountNumber : string) (amount : number)
    (companyId : string) : M unit :=
  fun this =>
    if (amount <=? 0)%float then throw (Error "Amount must be greater than 0") this
    else
      let fromAccount := Map_get fromAccountNumber this in
      let toAccount := Map_get toAccountNumber this in
      match fromAccount, toAccount with
      | Some fromAccount, Some toAccount =>
          if strict_ne (getCompanyId fromAccount) companyId
             || strict_ne (getCompanyId toAccount) companyId
          then
            throw (CompanyMismatchError companyId
                     (if strict_ne (getCompanyId fromAccount) companyId
                      then getCompanyId fromAccount
                      else getCompanyId toAccount)) this
          else if (getBalance fromAccount <? amount)%float then
            throw (InsufficientFundsError (getAccountNumber fromAccount) amount
                     (getBalance fromAccount)) this
          else
            (invoke fromAccountNumber (withdraw amount) ;;
             invoke toAccountNumber (deposit amount)) this
      | None, _ => throw (AccountNotFoundError fromAccountNumber) this
      | Some _, None => throw (AccountNotFoundError toAccountNumber) this
      end.

End TenantBankingService.

(** ** Callers

    [processTransaction(new TransactionEntity(input))]: what the file reader
    and the entry point do with every record, and the only way to hand a
    record to [processTransaction]. *)
Definition construct_and_process (process : TransactionEntity.t -> M unit)
    (input : TransactionEntity.Transaction) : M unit :=
  fun this =>
    match TransactionEntity.new input with
    | inl e => (inl e, this)
    | inr transaction => process transaction this
    end.

(** One call on the tenant-aware service by its owner. *)
Inductive Call :=
  | call_processTransaction (input : TransactionEntity.Transaction)
  | call_transfer (fromAccountNumber toAccountNumber : string) (amount : number)
      (companyId : string)
  | call_getAccountBalance (accountNumber companyId : string)
  | call_getAllAccounts.

(** The amount a call asks to move, if any. *)
Definition call_amount (c : Call) : option number :=
  match c with
  | call_processTransaction input => Some (TransactionEntity.amount input)
  | call_transfer _ _ amount _ => Some amount
  | _ => None
  end.

(** The state a call leaves, whether it returns or throws. *)
Definition after_call (c : Call) (this : BankingState) : BankingState :=
  match c with
  | call_processTransaction input =>
      snd (construct_and_process TenantBankingService.processTransaction input this)
  | call_transfer f t amount cid => snd (TenantBankingService.transfer f t amount cid this)
  | call_getAccountBalance n cid => snd (TenantBankingService.getAccountBalance n cid this)
  | call_getAllAccounts => snd (getAllAccounts this)
  end.

Definition after_calls (cs : list Call) (this : BankingState) : BankingState :=
  foldl (fun s c => after_call c s) this cs.

(** [initialAccounts]: every record goes through [new AccountEntity]. *)
Fixpoint construct_accounts (inputs : list AccountEntity.Account)
    : Exception + list AccountEntity.t :=
  match inputs with
  | [] => inr []
  | input :: rest =>
      match AccountEntity.new input with
      | inl e => inl e
      | inr a =>
          match construct_accounts rest with
          | inl e => inl e
          | inr l => inr (a :: l)
          end
      end
  end.

(** Every balance in the ledger compares [>= 0]. *)
Definition balances_nonnegative (this : BankingState) : Prop :=
  forall k a, accounts this !! k = Some a -> (0 <=? AccountEntity.getBalance a)%float = true.

(** A valid account number: the two string checks raise no issue. *)
Definition valid_account_number (s : string) : bool :=
  (String.length s =? 16)%nat && digits_regex s.

(** ** Fixtures of the test suites *)

Definition mkAccount (n : string) (b : number) (c : string) : AccountEntity.t :=
  {| AccountEntity.account :=
       {| AccountEntity.accountNumber := n; AccountEntity.balance := b;
          AccountEntity.companyId := c |} |}.

Definition mkTransaction (f t : string) (a : number) (c : string) : TransactionEntity.t :=
  {| TransactionEntity.transaction :=
       {| TransactionEntity.fromAccount := f; TransactionEntity.toAccount := t;
          TransactionEntity.amount := a; TransactionEntity.companyId := c |} |}.

Definition acctA : string := "1111234522226789".
Definition acctB : string := "2222123433331212".
Definition acctC : string := "1111234522221234".
Definition acctZ : string := "9999999999999999".

Definition test_service : BankingState :=
  BankingService_new
    [ mkAccount acctA 5000 "alpha-sales"; mkAccount acctC 10000 "alpha-sales";
      mkAccount acctB 550 "alpha-sales"; mkAccount acctZ 1000 "beta-sales" ].

(** The object the credit runs on, once the debit has run: the debited
    object itself when both references are the same. *)
Definition credited_object (from to : string) (src' dst : AccountEntity.t) : AccountEntity.t :=
  if decide (from = to) then src' else dst.

(** What the specification expects of a transfer whose checks all pass:
    it succeeds, the source loses the amount, the destination gains it, their
    sum is the same as before and no other account changes. *)
Definition moves_amount_and_conserves (process : TransactionEntity.t -> M unit)
    (this : BankingState) (transaction : TransactionEntity.t) : Prop :=
  let from := TransactionEntity.getFromAccount transaction in
  let to := TransactionEntity.getToAccount transaction in
  let amount := TransactionEntity.getAmount transaction in
  let tenant := TransactionEntity.getCompanyId transaction in
  forall src dst,
    Map_get from this = Some src ->
    Map_get to this = Some dst ->
    AccountEntity.getCompanyId src = tenant ->
    AccountEntity.getCompanyId dst = tenant ->
    (0 <? amount)%float = true ->
    AccountEntity.canWithdraw src amount = true ->
    exists this' src' dst',
      process transaction this = (inr tt, this')
      /\ Map_get from this' = Some src'
      /\ Map_get to this' = Some dst'
      /\ AccountEntity.getBalance src' = (AccountEntity.getBalance src - amount)%float
      /\ AccountEntity.getBalance dst' = (AccountEntity.getBalance dst + amount)%float
      /\ (AccountEntity.getBalance src' + AccountEntity.getBalance dst')%float
         = (AccountEntity.getBalance src + AccountEntity.getBalance dst)%float
      /\ forall k, k <> from -> k <> to -> Map_get k this' = Map_get k this.

(** A ledger on which the two binary64 roundings of a transfer show. *)
Definition dimes_service : BankingState :=
  BankingService_new [ mkAccount acctA 0.1 "alpha-sales"; mkAccount acctB 0.2 "alpha-sales" ].

(** What the specification expects of debiting an account's whole
    balance: the debit succeeds and leaves 0. *)
Definition whole_balance_debit_leaves_zero (this : AccountEntity.t) : Prop :=
  exists this',
    AccountEntity.withdraw (AccountEntity.getBalance this) this = (inr tt, this')
    /\ AccountEntity.getBalance this' = 0%float.

(** What the specification expects of the convenience entry point: an
    amount that is not positive is refused with the generic error, and any
    other call is the construction of a transaction followed by
    [processTransaction]. *)
Definition transfer_is_construct_and_process (this : BankingState)
    (from to : string) (amount : number) (tenant : string) : Prop :=
  ((0 <? amount)%float = false ->
     TenantBankingService.transfer from to amount tenant this
     = (inl (Error "Amount must be greater than 0"), this))
  /\ ((0 <? amount)%float = true ->
     TenantBankingService.transfer from to amount tenant this
     = construct_and_process TenantBankingService.processTransaction
         {| TransactionEntity.fromAccount := from; TransactionEntity.toAccount := to;
            TransactionEntity.amount := amount; TransactionEntity.companyId := tenant |}
         this).

(** No call asks to move [+Infinity]. *)
Definition finite_amounts (cs : list Call) : Prop :=
  forall c a, c ∈ cs -> call_amount c = Some a -> (a =? infinity)%float = false.

(** Records that pass both schemas although a balance and an amount are
    infinite, and the state their transfer leaves. *)
Definition infinite_inputs : list AccountEntity.Account :=
  [ {| AccountEntity.accountNumber := acctA; AccountEntity.balance := infinity;
       AccountEntity.companyId := "alpha-sales" |};
    {| AccountEntity.accountNumber := acctB; AccountEntity.balance := 0;
       AccountEntity.companyId := "alpha-sales" |} ].

Definition infinite_transfer : TransactionEntity.Transaction :=
  {| TransactionEntity.fromAccount := acctA; TransactionEntity.toAccount := acctB;
     TransactionEntity.amount := infinity; TransactionEntity.companyId := "alpha-sales" |}.

Definition nan_service : BankingState :=
  after_calls [ call_processTransaction infinite_transfer ]
    (BankingService_new [ mkAccount acctA infinity "alpha-sales";
                          mkAccount acctB 0 "alpha-sales" ]).

(** ** Binary64 specification values

    What a rounded result can be, by sign: used to state the facts about
    [+] and [-] on which the balance properties rest. *)

(** A zero, a finite value or an infinity of sign [s]. *)
Definition has_sign (s : bool) (x : spec_float) : Prop :=
  match x with
  | S754_zero s' | S754_infinity s' | S754_finite s' _ _ => s' = s
  | S754_nan => False
  end.

(** A finite non-zero value or an infinity of sign [s]. *)
Definition nonzero_with_sign (s : bool) (x : spec_float) : Prop :=
  match x with
  | S754_infinity s' | S754_finite s' _ _ => s' = s
  | _ => False
  end.

(** [0 <= x] on specification values. *)
Definition SFnonneg (x : spec_float) : Prop := SFleb (S754_zero false) x = true.

(** ** What a call may not touch *)

(** The fields of an account that no method assigns. *)
Definition account_identity (a : AccountEntity.t) : string * string :=
  (AccountEntity.getAccountNumber a, AccountEntity.getCompanyId a).

(** Every account is stored under its own account number. *)
Definition keyed_by_number (this : BankingState) : Prop :=
  forall k a, accounts this !! k = Some a -> AccountEntity.getAccountNumber a = k.

(** The key list of the [Map] lists its keys, each once. *)
Definition keys_listed (this : BankingState) : Prop :=
  NoDup (order this) /\ forall k, k ∈ order this <-> is_Some (accounts this !! k).

(** One call on the service without companies, and the state it leaves. *)
Inductive PlainCall :=
  | plain_processTransaction (input : TransactionEntity.Transaction)
  | plain_transfer (fromAccountNumber toAccountNumber : string) (amount : number)
  | plain_getAccountBalance (accountNumber : string)
  | plain_getAllAccounts.

Definition plain_call_amount (c : PlainCall) : option number :=
  match c with
  | plain_processTransaction input => Some (TransactionEntity.amount input)
  | plain_transfer _ _ amount => Some amount
  | _ => None
  end.

Definition after_plain_call (c : PlainCall) (this : BankingState) : BankingState :=
  match c with
  | plain_processTransaction input =>
      snd (construct_and_process BankingService.processTransaction input this)
  | plain_transfer f t amount => snd (BankingService.transfer f t amount this)
  | plain_getAccountBalance n => snd (BankingService.getAccountBalance n this)
  | plain_getAllAccounts => snd (getAllAccounts this)
  end.

Definition after_plain_calls (cs : list PlainCall) (this : BankingState) : BankingState :=
  foldl (fun s c => after_plain_call c s) this cs.

(** The state a debit of [src] and a credit of [dst] leave, once every
    check has passed. *)
Definition moved_state (from to : string) (amount : number)
    (this : BankingState) (src dst : AccountEntity.t) : BankingState :=
  let src' := AccountEntity.set_balance src (AccountEntity.getBalance src - amount)%float in
  let dst0 := credited_object from to src' dst in
  {| order := order this;
     accounts :=
       <[to := AccountEntity.set_balance dst0 (AccountEntity.getBalance dst0 + amount)%float]>
         (<[from := src']> (accounts this)) |}.

(** The two ways a transfer ends: an exception with the state as it was, or
    the debit and the credit of the two accounts found. *)
Definition throws_or_moves (from to : string) (amount : number)
    (this : BankingState) (outcome : (Exception + unit) * BankingState) : Prop :=
  (exists e, outcome = (inl e, this))
  \/ (exists src dst,
        Map_get from this = Some src /\ Map_get to this = Some dst
        /\ AccountEntity.canWithdraw src amount = true
        /\ outcome = (inr tt, moved_state from to amount this src dst)).

(** No plain call asks to move [+Infinity]. *)
Definition finite_plain_amounts (cs : list PlainCall) : Prop :=
  forall c a, c ∈ cs -> plain_call_amount c = Some a -> (a =? infinity)%float = false.

(** ** [domain/errors/BankingError.ts]: the CSV and file errors

    The file reader throws nothing else: its [catch] turns every other
    exception into a [FileSystemError]. *)

Inductive ReaderError :=
  | InvalidCsvFormatError (filePath reason : string)
  | FileSystemError (filePath operation reason : string).

(** ** [services/FileReaderService.ts], the tenant-aware revision

    The file system, the CSV parser, [parseFloat] and the [message] of an
    exception are not code of the repository; they are parameters:
    [read_records filePath] is the outcome of
    [parse(fs.readFileSync(filePath, 'utf-8'), ...)], either the message the
    [catch] block reads off what was thrown or the records. *)

Module FileReaderService.
Section Reader.
Variable read_records : string -> string + list (list string).
Variable parseFloat : string -> number.
Variable message : Exception -> string.

(** What can be thrown inside the [try] block. *)
Inductive Thrown :=
  | thrown_foreign (msg : string)
  | thrown_Exception (e : Exception)
  | thrown_InvalidCsvFormatError (filePath reason : string).

(** The [catch] block. *)
Definition catch (filePath : string) (t : Thrown) : ReaderError :=
  match t with
  | thrown_InvalidCsvFormatError f reason => InvalidCsvFormatError f reason
  | thrown_Exception e => FileSystemError filePath "read" (message e)
  | thrown_foreign msg => FileSystemError filePath "read" msg
  end.

(** [records.map((record, index) => ...)]: the callback runs on the records
    in order and the first throw ends the map. *)
Fixpoint map_records {B} (callback : list string -> nat -> Thrown + B)
    (index : nat) (records : list (list string)) : Thrown + list B :=
  match records with
  | [] => inr []
  | record :: rest =>
      match callback record index with
      | inl t => inl t
      | inr b =>
          match map_records callback (S index) rest with
          | inl t => inl t
          | inr bs => inr (b :: bs)
          end
      end
  end.

Definition account_of_record (filePath companyId : string)
    (record : list string) (index : nat) : Thrown + AccountEntity.t :=
  if negb (length record =? 2)%nat then
    inl (thrown_InvalidCsvFormatError filePath
           ("Line " +:+ pretty (index + 1)%nat
            +:+ ": Expected 2 columns (account number, balance), got "
            +:+ pretty (length record)))
  else
    let accountNumber := nth 0 record "" in
    let balance := parseFloat (nth 1 record "") in
    if is_nan balance then
      inl (thrown_InvalidCsvFormatError filePath
             ("Line " +:+ pretty (index + 1)%nat
              +:+ ": Invalid balance format: " +:+ nth 1 record ""))
    else
      match AccountEntity.new
              {| AccountEntity.accountNumber := accountNumber;
                 AccountEntity.balance := balance;
                 AccountEntity.companyId := companyId |} with
      | inl e => inl (thrown_Exception e)
      | inr a => inr a
      end.

Definition transaction_of_record (filePath companyId : string)
    (record : list string) (index : nat) : Thrown + TransactionEntity.t :=
  if negb (length record =? 3)%nat then
    inl (thrown_InvalidCsvFormatError filePath
           ("Line " +:+ pretty (index + 1)%nat
            +:+ ": Expected 3 columns (from, to, amount), got "
            +:+ pretty (length record)))
  else
    let fromAccount := nth 0 record "" in
    let toAccount := nth 1 record "" in
    let amount := parseFloat (nth 2 record "") in
    if is_nan amount then
      inl (thrown_InvalidCsvFormatError filePath
             ("Line " +:+ pretty (index + 1)%nat
              +:+ ": Invalid amount format: " +:+ nth 2 record ""))
    else
      match TransactionEntity.new
              {| TransactionEntity.fromAccount := fromAccount;
                 TransactionEntity.toAccount := toAccount;
                 TransactionEntity.amount := amount;
                 TransactionEntity.companyId := companyId |} with
      | inl e => inl (thrown_Exception e)
      | inr t => inr t
      end.

(** [try { ... } catch (error) { ... }] around reading, parsing and mapping. *)
Definition read_with {B} (callback : list string -> nat -> Thrown + B)
    (filePath : string) : ReaderError + list B :=
  match
    match read_records filePath with
    | inl msg => inl (thrown_foreign msg)
    | inr records => map_records callback 0 records
    end
  with
  | inl t => inl (catch filePath t)
  | inr l => inr l
  end.

Definition readAccountBalances (filePath companyId : string)
    : ReaderError + list AccountEntity.t :=
  read_with (account_of_record filePath companyId) filePath.

Definition readTransactions (filePath companyId : string)
    : ReaderError + list TransactionEntity.t :=
  read_with (transaction_of_record filePath companyId) filePath.

End Reader.
End FileReaderService.

(** Rows that the two callbacks turn into an entity. *)
Definition account_row_ok (parseFloat : string -> number) (record : list string) : bool :=
  match record with
  | [n; b] => valid_account_number n && (0 <=? parseFloat b)%float
  | _ => false
  end.

Definition transaction_row_ok (parseFloat : string -> number) (record : list string)
    : bool :=
  match record with
  | [f; t; a] =>
      valid_account_number f && valid_account_number t && (0 <? parseFloat a)%float
  | _ => false
  end.

(** ** [index.ts]: the loop over the transactions

    [transactions.forEach(transaction => { try { ... } catch { ... } })] of
    [main], on the service without companies.  [toFixed(2)] and the [message]
    of an exception are parameters. *)

Inductive Console :=
  | console_log (line : string)
  | console_error (line : string).

Section Main.
Variable toFixed2 : number -> string.
Variable message : Exception -> string.

Definition process_and_report (transaction : TransactionEntity.t) (this : BankingState)
    : Console * BankingState :=
  match BankingService.processTransaction transaction this with
  | (inr _, this') =>
      (console_log
         ("Processed: $" +:+ toFixed2 (TransactionEntity.getAmount transaction)
          +:+ " from " +:+ TransactionEntity.getFromAccount transaction
          +:+ " to " +:+ TransactionEntity.getToAccount transaction),
       this')
  | (inl e, this') =>
      (console_error ("Failed to process transaction: " +:+ message e), this')
  end.

Fixpoint process_all (transactions : list TransactionEntity.t) (this : BankingState)
    : list Console * BankingState :=
  match transactions with
  | [] => ([], this)
  | transaction :: rest =>
      let '(line, this') := process_and_report transaction this in
      let '(lines, this'') := process_all rest this' in
      (line :: lines, this'')
  end.

End Main.

(** * Properties *)

(** ** Binary64 arithmetic: rounding keeps signs and order *)

Section SpecFloatFacts.
Local Open Scope Z_scope.
Variables prec emax : Z.
Hypothesis prec_pos : 0 < prec.

Lemma digits2_pos_bounds (m : positive) :
  2 ^ (Zpos (digits2_pos m) - 1) <= Zpos m < 2 ^ Zpos (digits2_pos m).
Proof.
  induction m as [m IH|m IH|]; cbn [digits2_pos].
  - rewrite Pos2Z.inj_succ, Z.pow_succ_r by lia.
    replace (Z.succ (Zpos (digits2_pos m)) - 1) with (Z.succ (Zpos (digits2_pos m) - 1)) by lia.
    rewrite Z.pow_succ_r by lia. lia.
  - rewrite Pos2Z.inj_succ, Z.pow_succ_r by lia.
    replace (Z.succ (Zpos (digits2_pos m)) - 1) with (Z.succ (Zpos (digits2_pos m) - 1)) by lia.
    rewrite Z.pow_succ_r by lia. lia.
  - cbn. lia.
Qed.

Lemma iter_xO_value (m d : positive) : Zpos (Pos.iter xO m d) = Zpos m * 2 ^ Zpos d.
Proof.
  induction d as [|d IH] using Pos.peano_ind.
  - cbn. lia.
  - rewrite Pos.iter_succ, Pos2Z.inj_succ, Z.pow_succ_r by lia.
    rewrite Pos2Z.inj_xO, IH. lia.
Qed.

Lemma shl_align_value (m : positive) (e e' : Z) :
  e' <= e -> Zpos (fst (shl_align m e e')) = Zpos m * 2 ^ (e - e').
Proof.
  intros H. unfold shl_align. destruct (e' - e) as [|d|d] eqn:E; cbn [fst].
  - replace (e - e') with 0 by lia. lia.
  - lia.
  - rewrite iter_xO_value. f_equal. f_equal. lia.
Qed.

Lemma shl_align_exponent (m : positive) (e e' : Z) :
  snd (shl_align m e e') = Z.min e e'.
Proof.
  unfold shl_align. destruct (e' - e) eqn:E; cbn [snd]; lia.
Qed.

(** ** Right shifts *)

Lemma shr_1_m (r : shr_record) : 0 <= shr_m r -> shr_m (shr_1 r) = shr_m r / 2.
Proof.
  destruct r as [m r s]. cbn [shr_m]. intros H. unfold shr_1.
  destruct m as [|[p|p|]|p]; cbn [shr_m]; try lia.
  - reflexivity.
  - rewrite Pos2Z.inj_xI. apply Z.div_unique with (r := 1); lia.
  - rewrite Pos2Z.inj_xO. apply Z.div_unique with (r := 0); lia.
  - reflexivity.
Qed.

Lemma shr_iter_m (p : positive) (r : shr_record) :
  0 <= shr_m r -> shr_m (SpecFloat.iter_pos shr_1 p r) = shr_m r / 2 ^ Zpos p.
Proof.
  revert r. induction p as [p IH|p IH|]; intros r H; cbn [SpecFloat.iter_pos].
  - assert (H1 : 0 <= shr_m (shr_1 r)) by (rewrite shr_1_m by done; apply Z.div_pos; lia).
    assert (H2 : 0 <= shr_m (SpecFloat.iter_pos shr_1 p (shr_1 r)))
      by (rewrite IH by done; apply Z.div_pos; [done|apply Z.pow_pos_nonneg; lia]).
    rewrite IH, IH, shr_1_m by done.
    rewrite !Z.div_div by (try apply Z.pow_pos_nonneg; lia).
    f_equal. replace (Zpos p~1) with (1 + Zpos p + Zpos p) by lia.
    rewrite !Z.pow_add_r, Z.pow_1_r by lia. ring.
  - assert (H2 : 0 <= shr_m (SpecFloat.iter_pos shr_1 p r))
      by (rewrite IH by done; apply Z.div_pos; [done|apply Z.pow_pos_nonneg; lia]).
    rewrite IH, IH by done.
    rewrite !Z.div_div by (try apply Z.pow_pos_nonneg; lia).
    f_equal. replace (Zpos p~0) with (Zpos p + Zpos p) by lia.
    rewrite Z.pow_add_r by lia. ring.
  - rewrite shr_1_m by done. f_equal.
Qed.

Lemma shr_record_of_loc_m (m : Z) (l : location) : shr_m (shr_record_of_loc m l) = m.
Proof. by destruct l as [|[]]. Qed.

Lemma shr_fexp_nonneg (m e : Z) (l : location) :
  0 <= m -> 0 <= shr_m (fst (shr_fexp prec emax m e l)).
Proof.
  intros H. unfold shr_fexp, shr.
  destruct (fexp prec emax (Zdigits2 m + e) - e) as [|p|p]; cbn [fst];
    rewrite ?shr_iter_m, shr_record_of_loc_m; rewrite ?shr_record_of_loc_m; try done.
  apply Z.div_pos; [done|apply Z.pow_pos_nonneg; lia].
Qed.

Lemma shr_fexp_pos (m e : Z) (l : location) :
  0 < m -> SpecFloat.emin prec emax <= e ->
  0 < shr_m (fst (shr_fexp prec emax m e l)) /\ SpecFloat.emin prec emax <= snd (shr_fexp prec emax m e l).
Proof.
  intros Hm He. unfold shr_fexp, shr.
  destruct (fexp prec emax (Zdigits2 m + e) - e) as [|p|p] eqn:E; cbn [fst snd];
    rewrite ?shr_record_of_loc_m; try done.
  rewrite shr_iter_m, shr_record_of_loc_m by (rewrite shr_record_of_loc_m; lia).
  split; [|lia].
  destruct m as [|q|q]; try lia. cbn [Zdigits2] in E. unfold fexp in E.
  pose proof (digits2_pos_bounds q) as [Hlo _].
  apply Z.div_str_pos. split; [apply Z.pow_pos_nonneg; lia|].
  etrans; [|exact Hlo]. apply Z.pow_le_mono_r; lia.
Qed.

Lemma round_nearest_even_bounds (m : Z) (l : location) :
  m <= round_nearest_even m l <= m + 1.
Proof. unfold round_nearest_even. destruct l as [|[]]; try destruct (Z.even m); lia. Qed.

(** ** The sign of a rounded result *)

Lemma binary_round_aux_sign (s : bool) (m e : Z) (l : location) :
  0 <= m -> has_sign s (binary_round_aux prec emax s m e l).
Proof.
  intros Hm. unfold binary_round_aux.
  pose proof (shr_fexp_nonneg m e l Hm) as H1.
  destruct (shr_fexp prec emax m e l) as [mrs' e']. cbn [fst] in H1.
  pose proof (round_nearest_even_bounds (shr_m mrs') (loc_of_shr_record mrs')) as Hr.
  pose proof (shr_fexp_nonneg (round_nearest_even (shr_m mrs') (loc_of_shr_record mrs'))
                e' loc_Exact ltac:(lia)) as H2.
  destruct (shr_fexp prec emax _ e' loc_Exact) as [mrs'' e'']. cbn [fst] in H2.
  destruct (shr_m mrs'') as [|q|q]; [done| |lia].
  by destruct (e'' <=? emax - prec).
Qed.

Lemma binary_round_aux_nonzero (s : bool) (m e : Z) (l : location) :
  0 < m -> SpecFloat.emin prec emax <= e -> nonzero_with_sign s (binary_round_aux prec emax s m e l).
Proof.
  intros Hm He. unfold binary_round_aux.
  pose proof (shr_fexp_pos m e l Hm He) as [H1 H1'].
  destruct (shr_fexp prec emax m e l) as [mrs' e']. cbn [fst snd] in H1, H1'.
  pose proof (round_nearest_even_bounds (shr_m mrs') (loc_of_shr_record mrs')) as Hr.
  pose proof (shr_fexp_pos (round_nearest_even (shr_m mrs') (loc_of_shr_record mrs'))
                e' loc_Exact ltac:(lia) H1') as [H2 _].
  destruct (shr_fexp prec emax _ e' loc_Exact) as [mrs'' e'']. cbn [fst] in H2.
  destruct (shr_m mrs'') as [|q|q]; [lia| |lia].
  by destruct (e'' <=? emax - prec).
Qed.

Lemma binary_round_sign (s : bool) (m : positive) (e : Z) :
  has_sign s (binary_round prec emax s m e).
Proof.
  unfold binary_round. destruct (shl_align m e _) as [mz ez].
  by apply binary_round_aux_sign.
Qed.

Lemma binary_round_nonzero (s : bool) (m : positive) (e : Z) :
  SpecFloat.emin prec emax <= e -> nonzero_with_sign s (binary_round prec emax s m e).
Proof.
  intros He. unfold binary_round.
  pose proof (shl_align_exponent m e (fexp prec emax (Zpos (digits2_pos m) + e))) as Hez.
  destruct (shl_align m e _) as [mz ez]. cbn [snd] in Hez.
  apply binary_round_aux_nonzero; [done|]. unfold fexp in Hez. lia.
Qed.


(** ** Comparing canonical mantissas *)

Lemma bounded_canonical (m : positive) (e : Z) :
  bounded prec emax m e = true ->
  SpecFloat.emin prec emax <= e
  /\ Zpos (digits2_pos m) <= prec
  /\ (SpecFloat.emin prec emax < e -> Zpos (digits2_pos m) = prec).
Proof.
  unfold bounded, canonical_mantissa, fexp.
  intros [H _]%andb_true_iff. apply Z.eqb_eq in H. lia.
Qed.

Lemma aligned_compare (m1 : positive) (e1 : Z) (m2 : positive) (e2 : Z) :
  bounded prec emax m1 e1 = true ->
  bounded prec emax m2 e2 = true ->
  match e1 ?= e2 with
  | Lt => Lt
  | Gt => Gt
  | Eq => Pos.compare_cont Eq m1 m2
  end
  = (Zpos (fst (shl_align m1 e1 (Z.min e1 e2))) ?= Zpos (fst (shl_align m2 e2 (Z.min e1 e2)))).
Proof.
  intros (Hmin1 & Hd1 & Hn1)%bounded_canonical (Hmin2 & Hd2 & Hn2)%bounded_canonical.
  rewrite !shl_align_value by lia.
  pose proof (digits2_pos_bounds m1) as [Hlo1 Hhi1].
  pose proof (digits2_pos_bounds m2) as [Hlo2 Hhi2].
  assert (Hstep : forall (a b : positive) (k d : Z),
             0 < k -> Zpos a < 2 ^ d -> d <= prec -> 2 ^ (prec - 1) <= Zpos b ->
             Zpos a < Zpos b * 2 ^ k).
  { intros a b k d Hk Ha Hd Hb.
    assert (2 ^ d <= 2 ^ prec) by (apply Z.pow_le_mono_r; lia).
    assert (2 ^ 1 <= 2 ^ k) by (apply Z.pow_le_mono_r; lia).
    assert (2 ^ prec = 2 ^ (prec - 1) * 2 ^ 1)
      by (rewrite <- Z.pow_add_r by lia; f_equal; lia).
    rewrite Z.pow_1_r in *. nia. }
  destruct (Z.compare_spec e1 e2) as [->|Hlt|Hgt].
  - rewrite Z.min_id, Z.sub_diag, Z.pow_0_r, !Z.mul_1_r. reflexivity.
  - replace (Z.min e1 e2) with e1 by lia.
    rewrite Z.sub_diag, Z.pow_0_r, Z.mul_1_r. symmetry. apply Z.compare_lt_iff.
    apply (Hstep m1 m2 (e2 - e1) (Zpos (digits2_pos m1))); try lia.
    rewrite <- Hn2 by lia. exact Hlo2.
  - replace (Z.min e1 e2) with e2 by lia.
    rewrite Z.sub_diag, Z.pow_0_r, Z.mul_1_r. symmetry. apply Z.compare_gt_iff.
    apply (Hstep m2 m1 (e1 - e2) (Zpos (digits2_pos m2))); try lia.
    rewrite <- Hn1 by lia. exact Hlo1.
Qed.

(** ** Sums and differences *)

Lemma has_sign_nonneg (x : spec_float) : has_sign false x -> SFnonneg x.
Proof. destruct x as [s|s| |s m e]; cbn; try done; by intros ->. Qed.

Lemma SFnonneg_cases (x : spec_float) :
  SFnonneg x ->
  match x with
  | S754_zero _ => True
  | S754_infinity s | S754_finite s _ _ => s = false
  | S754_nan => False
  end.
Proof. by destruct x as [s|[]| |[] m e]. Qed.

Lemma binary_normalize_nonneg (m e : Z) :
  0 <= m -> SFnonneg (binary_normalize prec emax m e false).
Proof.
  intros H. destruct m as [|p|p]; cbn [binary_normalize]; [done| |lia].
  apply has_sign_nonneg, binary_round_sign.
Qed.

Lemma binary_normalize_negative (m e : Z) :
  m < 0 -> SpecFloat.emin prec emax <= e ->
  nonzero_with_sign true (binary_normalize prec emax m e false).
Proof.
  intros H He. destruct m as [|p|p]; cbn [binary_normalize]; [lia|lia|].
  by apply binary_round_nonzero.
Qed.

Lemma SFadd_nonneg (x y : spec_float) :
  SFnonneg x -> SFnonneg y -> SFnonneg (SFadd prec emax x y).
Proof.
  intros Hx%SFnonneg_cases Hy%SFnonneg_cases.
  destruct x as [sx|sx| |sx mx ex], y as [sy|sy| |sy my ey]; try done; subst; try done;
    try (by destruct sx); try (by destruct sy); try (by destruct sx, sy).
  cbn [SFadd cond_Zopp]. apply binary_normalize_nonneg. lia.
Qed.

Lemma SFsub_nonneg (x y : spec_float) :
  SpecFloat.valid_binary prec emax x = true ->
  SpecFloat.valid_binary prec emax y = true ->
  SFnonneg y -> SFleb y x = true -> y <> S754_infinity false ->
  SFnonneg (SFsub prec emax x y).
Proof.
  intros Vx Vy Hy%SFnonneg_cases Hle Hinf.
  destruct x as [sx|sx| |sx mx ex], y as [sy|sy| |sy my ey]; try done; subst; try done;
    try (by destruct sx); try (by destruct sy); try (by destruct sx, sy).
  destruct sx; [done|]. cbn [SFsub cond_Zopp]. apply binary_normalize_nonneg.
  cbn [SpecFloat.valid_binary] in Vx, Vy.
  unfold SFleb in Hle. cbn [SFcompare] in Hle.
  rewrite (aligned_compare my ey mx ex Vy Vx), (Z.min_comm ey ex) in Hle.
  destruct (Z.compare_spec (Zpos (fst (shl_align my ey (Z.min ex ey))))
              (Zpos (fst (shl_align mx ex (Z.min ex ey))))); try done; lia.
Qed.

Lemma SFsub_diag (x : spec_float) :
  match x with S754_zero _ | S754_finite _ _ _ => True | _ => False end ->
  SFsub prec emax x x = S754_zero false.
Proof.
  destruct x as [[]|s| |s m e]; try done. intros _.
  cbn [SFsub]. by rewrite Z.sub_diag.
Qed.

Lemma SFadd_negative (x y : spec_float) :
  SpecFloat.valid_binary prec emax x = true ->
  SpecFloat.valid_binary prec emax y = true ->
  SFltb x (SFopp y) = true ->
  SFltb (SFadd prec emax x y) (S754_zero false) = true.
Proof.
  intros Vx Vy Hlt.
  assert (Hneg : forall z, nonzero_with_sign true z -> SFltb z (S754_zero false) = true)
    by (intros [?|?| |? ? ?]; cbn; try done; by intros ->).
  destruct x as [sx|sx| |sx mx ex], y as [sy|sy| |sy my ey]; try done;
    try (by destruct sx); try (by destruct sy); try (by destruct sx, sy).
  cbn [SpecFloat.valid_binary] in Vx, Vy.
  pose proof (bounded_canonical _ _ Vx) as (Hex & _).
  pose proof (bounded_canonical _ _ Vy) as (Hey & _).
  cbn [SFadd]. apply Hneg, binary_normalize_negative; [|lia].
  unfold SFltb in Hlt. cbn [SFopp SFcompare] in Hlt.
  pose proof (aligned_compare mx ex my ey Vx Vy) as Hcmp.
  destruct (Z.compare_spec (Zpos (fst (shl_align mx ex (Z.min ex ey))))
              (Zpos (fst (shl_align my ey (Z.min ex ey))))) as [Heq|Hlt'|Hgt'];
    destruct sx, sy; cbn [negb cond_Zopp] in *;
    destruct (ex ?= ey), (Pos.compare_cont Eq mx my); cbn [CompOpp] in *; try done; lia.
Qed.

Lemma SFcompare_refl (x : spec_float) : x <> S754_nan -> SFcompare x x = Some Eq.
Proof.
  destruct x as [s|[]| |[] m e]; try done; intros _; cbn [SFcompare];
    by rewrite Z.compare_refl, Pos.compare_cont_refl.
Qed.

Lemma SFcompare_antisym (x y : spec_float) :
  SFcompare y x = option_map CompOpp (SFcompare x y).
Proof.
  destruct x as [sx|sx| |sx mx ex], y as [sy|sy| |sy my ey]; try done;
    try (by destruct sx); try (by destruct sy); try (by destruct sx, sy).
  cbn [SFcompare option_map]. f_equal.
  assert (Hc : Pos.compare_cont Eq my mx = CompOpp (Pos.compare_cont Eq mx my))
    by (by rewrite Pos.compare_cont_antisym).
  rewrite (Z.compare_antisym ex ey), Hc.
  by destruct sx, sy, (ex ?= ey), (Pos.compare_cont Eq mx my).
Qed.

Lemma SFltb_negb_SFleb (x y : spec_float) :
  x <> S754_nan -> y <> S754_nan -> SFltb x y = negb (SFleb y x).
Proof.
  intros Hx Hy. unfold SFltb, SFleb. rewrite (SFcompare_antisym x y).
  destruct x as [sx|sx| |sx mx ex], y as [sy|sy| |sy my ey]; try done;
    cbn [SFcompare option_map]; try (by destruct sx); try (by destruct sy);
    try (by destruct sx, sy).
  by destruct sx, sy; try done; destruct (ex ?= ey); try done;
    destruct (Pos.compare_cont Eq mx my).
Qed.

End SpecFloatFacts.

(** ** Binary64: the same facts on primitive floats *)

Section Binary64.
Local Open Scope float_scope.

Lemma binary64_prec_pos : (0 < prec)%Z.
Proof. reflexivity. Qed.

Lemma is_nan_spec (x : float) : is_nan x = false <-> Prim2SF x <> S754_nan.
Proof.
  unfold is_nan. rewrite FloatAxioms.eqb_spec. unfold SFeqb. split.
  - intros H Hn. by rewrite Hn in H.
  - intros H. by rewrite SFcompare_refl.
Qed.

Lemma leb_not_nan (x y : float) :
  (x <=? y) = true -> is_nan x = false /\ is_nan y = false.
Proof.
  rewrite FloatAxioms.leb_spec. intros H. split; apply is_nan_spec; intros Hn; rewrite Hn in H;
    [|destruct (Prim2SF x) as [?|?| |? ? ?]]; done.
Qed.

Lemma ltb_not_nan (x y : float) :
  (x <? y) = true -> is_nan x = false /\ is_nan y = false.
Proof.
  rewrite FloatAxioms.ltb_spec. intros H. split; apply is_nan_spec; intros Hn; rewrite Hn in H;
    [|destruct (Prim2SF x) as [?|?| |? ? ?]]; done.
Qed.

Lemma ltb_negb_leb (x y : float) :
  is_nan x = false -> is_nan y = false -> (x <? y) = negb (y <=? x).
Proof.
  intros Hx%is_nan_spec Hy%is_nan_spec. rewrite FloatAxioms.ltb_spec, FloatAxioms.leb_spec.
  by apply SFltb_negb_SFleb.
Qed.

Lemma ltb_leb (x y : float) : (x <? y) = true -> (x <=? y) = true.
Proof.
  rewrite FloatAxioms.ltb_spec, FloatAxioms.leb_spec. unfold SFltb, SFleb.
  by destruct (SFcompare (Prim2SF x) (Prim2SF y)) as [[]|].
Qed.

Lemma leb_refl (x : float) : is_nan x = false -> (x <=? x) = true.
Proof.
  intros H%is_nan_spec. rewrite FloatAxioms.leb_spec. unfold SFleb. by rewrite SFcompare_refl.
Qed.

Lemma nonneg_spec (x : float) : (0 <=? x) = true <-> SFnonneg (Prim2SF x).
Proof. by rewrite FloatAxioms.leb_spec. Qed.

Lemma add_nonneg (x y : float) :
  (0 <=? x) = true -> (0 <=? y) = true -> (0 <=? x + y) = true.
Proof.
  intros Hx%nonneg_spec Hy%nonneg_spec. apply nonneg_spec. rewrite FloatAxioms.add_spec.
  by apply SFadd_nonneg.
Qed.

Lemma sub_nonneg (x y : float) :
  (0 <=? y) = true -> (y <=? x) = true -> (y =? infinity) = false ->
  (0 <=? x - y) = true.
Proof.
  intros Hy%nonneg_spec Hle Hinf. apply nonneg_spec.
  rewrite FloatAxioms.leb_spec in Hle. rewrite FloatAxioms.eqb_spec in Hinf. rewrite FloatAxioms.sub_spec.
  apply (SFsub_nonneg prec emax binary64_prec_pos); auto using Prim2SF_valid.
  intros Heq. by rewrite Heq in Hinf.
Qed.

Lemma is_finite_spec (x : float) :
  is_finite x = true ->
  match Prim2SF x with S754_zero _ | S754_finite _ _ _ => True | _ => False end.
Proof.
  unfold is_finite, is_infinity.
  intros [Hn Hi]%negb_true_iff%orb_false_iff. apply is_nan_spec in Hn.
  rewrite FloatAxioms.eqb_spec, FloatAxioms.abs_spec in Hi.
  by destruct (Prim2SF x) as [?|?| |? ? ?].
Qed.

Lemma sub_diag (x : float) : is_finite x = true -> x - x = 0.
Proof.
  intros H%is_finite_spec. apply Prim2SF_inj. rewrite FloatAxioms.sub_spec.
  by apply SFsub_diag.
Qed.

Lemma add_negative (x y : float) :
  (y <? 0) = true -> (x <? abs y) = true -> (x + y <? 0) = true.
Proof.
  rewrite !FloatAxioms.ltb_spec, FloatAxioms.add_spec, FloatAxioms.abs_spec. intros Hy Hx.
  apply (SFadd_negative prec emax binary64_prec_pos); auto using Prim2SF_valid.
  replace (SFopp (Prim2SF y)) with (SFabs (Prim2SF y)); [done|].
  by destruct (Prim2SF y) as [?|[]| |[] ? ?].
Qed.

End Binary64.


(** ** The state monad on concrete steps *)

Section Effects.
Import AccountEntity.

Lemma state_eta (this : BankingState) :
  {| order := order this; accounts := accounts this |} = this.
Proof. by destruct this. Qed.

Lemma bind_run {A B} (m : M A) (k : A -> M B) (this : BankingState) :
  (m ≫= k) this =
    match m this with
    | (inl e, this') => (inl e, this')
    | (inr a, this') => k a this'
    end.
Proof. reflexivity. Qed.

Lemma invoke_run {A} (ref : string) (method : t -> (Exception + A) * t)
    (this : BankingState) (obj : t) :
  accounts this !! ref = Some obj ->
  invoke ref method this =
    (fst (method obj),
     {| order := order this; accounts := <[ref := snd (method obj)]> (accounts this) |}).
Proof. intros H. unfold invoke. rewrite H. by destruct (method obj). Qed.

Lemma withdraw_ok (amount : number) (this : t) :
  canWithdraw this amount = true ->
  withdraw amount this = (inr tt, set_balance this (getBalance this - amount)%float).
Proof. intros H. unfold withdraw. by rewrite H. Qed.

Lemma withdraw_fail (amount : number) (this : t) :
  canWithdraw this amount = false ->
  withdraw amount this = (inl (Error "Insufficient funds"), this).
Proof. intros H. unfold withdraw. by rewrite H. Qed.

(** [fromAccount.withdraw(amount); toAccount.deposit(amount)] once every
    check has passed. *)
Lemma debit_then_credit (from to : string) (amount : number)
    (this : BankingState) (src dst : t) :
  accounts this !! from = Some src ->
  accounts this !! to = Some dst ->
  canWithdraw src amount = true ->
  let src' := set_balance src (getBalance src - amount)%float in
  let dst0 := credited_object from to src' dst in
  (invoke from (withdraw amount) ;; invoke to (deposit amount)) this =
    (inr tt,
     {| order := order this;
        accounts := <[to := set_balance dst0 (getBalance dst0 + amount)%float]>
                      (<[from := src']> (accounts this)) |}).
Proof.
  intros Hs Hd Hc src' dst0. rewrite bind_run.
  rewrite (invoke_run _ _ _ _ Hs), (withdraw_ok _ _ Hc). cbn [fst snd].
  assert (Hd' : <[from := src']> (accounts this) !! to = Some dst0).
  { unfold dst0, credited_object. destruct (decide (from = to)) as [->|Hne].
    - by rewrite lookup_insert_eq.
    - by rewrite lookup_insert_ne. }
  fold src'. erewrite invoke_run by exact Hd'. reflexivity.
Qed.

Lemma strict_ne_false (a b : string) :
  TenantBankingService.strict_ne a b = false <-> a = b.
Proof.
  unfold TenantBankingService.strict_ne. rewrite negb_false_iff. apply String.eqb_eq.
Qed.

Lemma strict_ne_true (a b : string) :
  TenantBankingService.strict_ne a b = true <-> a <> b.
Proof.
  unfold TenantBankingService.strict_ne. rewrite negb_true_iff. apply String.eqb_neq.
Qed.

End Effects.

(** Two binary64 values that differ as specification values are different. *)
Ltac float_discriminate H :=
  apply (f_equal Prim2SF) in H; vm_compute in H; discriminate H.

(** ** Transfers whose checks pass *)

Section Transfers.
Import AccountEntity.

(** C1 (as amended): for every transfer whose source and destination both
    exist, whose tenants match (tenant-aware revision) and whose source
    balance is at least the amount, processTransaction succeeds and no other
    account changes; when the two accounts are different, the source's
    balance becomes its balance minus the amount and the destination's its
    balance plus the amount (binary64 operations); when they are the same
    account, it is debited and then credited. *)
Theorem processTransaction_moves_amount
    (this : BankingState) (transaction : TransactionEntity.t) (src dst : t) :
  let from := TransactionEntity.getFromAccount transaction in
  let to := TransactionEntity.getToAccount transaction in
  let amount := TransactionEntity.getAmount transaction in
  let tenant := TransactionEntity.getCompanyId transaction in
  Map_get from this = Some src ->
  Map_get to this = Some dst ->
  canWithdraw src amount = true ->
  exists this',
    BankingService.processTransaction transaction this = (inr tt, this')
    /\ (getCompanyId src = tenant -> getCompanyId dst = tenant ->
        TenantBankingService.processTransaction transaction this = (inr tt, this'))
    /\ order this' = order this
    /\ (forall k, k <> from -> k <> to -> Map_get k this' = Map_get k this)
    /\ (from <> to ->
        Map_get from this' = Some (set_balance src (getBalance src - amount)%float)
        /\ Map_get to this' = Some (set_balance dst (getBalance dst + amount)%float))
    /\ (from = to ->
        Map_get from this'
        = Some (set_balance src (getBalance src - amount + amount)%float)).
Proof.
  intros from to amount tenant Hs Hd Hc.
  pose proof (debit_then_credit from to amount this src dst Hs Hd Hc) as Hrun.
  cbn zeta in Hrun. eexists. split_and!.
  - unfold BankingService.processTransaction. fold from to amount.
    rewrite Hs, Hd, Hc. exact Hrun.
  - intros Hts Htd. unfold TenantBankingService.processTransaction.
    fold from to amount tenant. rewrite Hs, Hd, Hc.
    rewrite (proj2 (strict_ne_false _ _) Hts), (proj2 (strict_ne_false _ _) Htd).
    exact Hrun.
  - reflexivity.
  - intros k Hkf Hkt. unfold Map_get; cbn [accounts].
    by rewrite !lookup_insert_ne.
  - intros Hne. unfold Map_get, credited_object; cbn [accounts].
    destruct (decide (from = to)); [done|].
    by rewrite lookup_insert_ne, !lookup_insert_eq.
  - intros Heq. unfold Map_get, credited_object; cbn [accounts].
    destruct (decide (from = to)); [|done].
    rewrite Heq. by rewrite lookup_insert_eq.
Qed.

Lemma processTransaction_moves_amount_witness :
  exists this',
    BankingService.processTransaction
      (mkTransaction acctA acctB 500 "alpha-sales") test_service = (inr tt, this')
    /\ TenantBankingService.processTransaction
      (mkTransaction acctA acctB 500 "alpha-sales") test_service = (inr tt, this')
    /\ Map_get acctA this' = Some (mkAccount acctA 4500 "alpha-sales")
    /\ Map_get acctB this' = Some (mkAccount acctB 1050 "alpha-sales").
Proof.
  destruct (processTransaction_moves_amount test_service
              (mkTransaction acctA acctB 500 "alpha-sales")
              (mkAccount acctA 5000 "alpha-sales") (mkAccount acctB 550 "alpha-sales")
              eq_refl eq_refl eq_refl)
    as (this' & Hplain & Htenant & _ & _ & Hmoved & _).
  destruct (Hmoved ltac:(discriminate)) as [Ha Hb].
  exists this'. split_and!.
  - exact Hplain.
  - exact (Htenant eq_refl eq_refl).
  - exact Ha.
  - exact Hb.
Defined.

(** C1 (as stated) fails twice.  A transfer from an account to itself
    debits and credits the same object, so the source does not lose the
    amount; and between two accounts the two roundings need not cancel:
    0.1 and 0.2 add up to 0.30000000000000004, and to 0.3 once 0.02 has
    moved. *)
Lemma self_transfer_and_rounding_break_conservation :
  (getBalance <$> Map_get acctA
     (snd (TenantBankingService.processTransaction
             (mkTransaction acctA acctA 500 "alpha-sales") test_service))
     = Some 5000%float
   /\ ~ moves_amount_and_conserves TenantBankingService.processTransaction
        test_service (mkTransaction acctA acctA 500 "alpha-sales"))
  /\ ((0.1 + 0.2 =? 0.08 + 0.22)%float = false
   /\ ~ moves_amount_and_conserves TenantBankingService.processTransaction
        dimes_service (mkTransaction acctA acctB 0.02 "alpha-sales")).
Proof.
  split_and!; try (vm_compute; reflexivity); intros H.
  - destruct (H (mkAccount acctA 5000 "alpha-sales") (mkAccount acctA 5000 "alpha-sales")
                eq_refl eq_refl eq_refl eq_refl eq_refl eq_refl)
      as (this' & src' & dst' & Hrun & Hs & _ & Hb & _).
    vm_compute in Hrun. injection Hrun as <-.
    vm_compute in Hs. injection Hs as <-.
    float_discriminate Hb.
  - destruct (H (mkAccount acctA 0.1 "alpha-sales") (mkAccount acctB 0.2 "alpha-sales")
                eq_refl eq_refl eq_refl eq_refl eq_refl eq_refl)
      as (this' & src' & dst' & Hrun & Hs & Hd & _ & _ & Hsum & _).
    vm_compute in Hrun. injection Hrun as <-.
    vm_compute in Hs. injection Hs as <-.
    vm_compute in Hd. injection Hd as <-.
    float_discriminate Hsum.
Qed.

End Transfers.

(** ** Validation: what fails, with which exception, in which order *)

Section Validation.
Import AccountEntity.

(** C5: when the source account is absent, processTransaction throws
    AccountNotFoundError with the source's number (whether or not the
    destination exists); when only the destination is absent, with the
    destination's number.  Both revisions of the service. *)
Theorem processTransaction_account_not_found
    (this : BankingState) (transaction : TransactionEntity.t) :
  let from := TransactionEntity.getFromAccount transaction in
  let to := TransactionEntity.getToAccount transaction in
  (Map_get from this = None ->
     BankingService.processTransaction transaction this
       = (inl (AccountNotFoundError from), this)
     /\ TenantBankingService.processTransaction transaction this
       = (inl (AccountNotFoundError from), this))
  /\ (is_Some (Map_get from this) -> Map_get to this = None ->
     BankingService.processTransaction transaction this
       = (inl (AccountNotFoundError to), this)
     /\ TenantBankingService.processTransaction transaction this
       = (inl (AccountNotFoundError to), this)).
Proof.
  intros from to. split.
  - intros Hf.
    unfold BankingService.processTransaction, TenantBankingService.processTransaction.
    fold from to. rewrite Hf. by destruct (Map_get to this).
  - intros [src Hf] Ht.
    unfold BankingService.processTransaction, TenantBankingService.processTransaction.
    fold from to. by rewrite Hf, Ht.
Qed.

Lemma processTransaction_account_not_found_witness :
  (BankingService.processTransaction
     (mkTransaction "0000000000000000" "0000000000000001" 100 "alpha-sales") test_service
     = (inl (AccountNotFoundError "0000000000000000"), test_service)
   /\ TenantBankingService.processTransaction
     (mkTransaction "0000000000000000" "0000000000000001" 100 "alpha-sales") test_service
     = (inl (AccountNotFoundError "0000000000000000"), test_service))
  /\ (BankingService.processTransaction
     (mkTransaction acctA "0000000000000000" 100 "alpha-sales") test_service
     = (inl (AccountNotFoundError "0000000000000000"), test_service)
   /\ TenantBankingService.processTransaction
     (mkTransaction acctA "0000000000000000" 100 "alpha-sales") test_service
     = (inl (AccountNotFoundError "0000000000000000"), test_service)).
Proof.
  split.
  - exact (proj1 (processTransaction_account_not_found test_service
                    (mkTransaction "0000000000000000" "0000000000000001" 100 "alpha-sales"))
                 eq_refl).
  - exact (proj2 (processTransaction_account_not_found test_service
                    (mkTransaction acctA "0000000000000000" 100 "alpha-sales"))
                 (ex_intro _ (mkAccount acctA 5000 "alpha-sales") eq_refl) eq_refl).
Defined.

(** C6: in the tenant-aware revision, when both accounts exist and one of
    them belongs to another company than the transaction's, processTransaction
    throws CompanyMismatchError(expected, actual) with the transaction's
    company as expected and, as actual, the source's company when the source
    mismatches, otherwise the destination's; getAccountBalance throws it for
    an account of another company than the one supplied. *)
Theorem company_mismatch_reported (this : BankingState) :
  (forall (transaction : TransactionEntity.t) (src dst : t),
     let tenant := TransactionEntity.getCompanyId transaction in
     Map_get (TransactionEntity.getFromAccount transaction) this = Some src ->
     Map_get (TransactionEntity.getToAccount transaction) this = Some dst ->
     (getCompanyId src <> tenant ->
        TenantBankingService.processTransaction transaction this
          = (inl (CompanyMismatchError tenant (getCompanyId src)), this))
     /\ (getCompanyId src = tenant -> getCompanyId dst <> tenant ->
        TenantBankingService.processTransaction transaction this
          = (inl (CompanyMismatchError tenant (getCompanyId dst)), this)))
  /\ (forall (accountNumber companyId : string) (account : t),
     Map_get accountNumber this = Some account ->
     getCompanyId account <> companyId ->
     TenantBankingService.getAccountBalance accountNumber companyId this
       = (inl (CompanyMismatchError companyId (getCompanyId account)), this)).
Proof.
  split.
  - intros transaction src dst tenant Hs Hd.
    unfold TenantBankingService.processTransaction. rewrite Hs, Hd. fold tenant. split.
    + intros Hne. by rewrite (proj2 (strict_ne_true _ _) Hne).
    + intros Heq Hne.
      by rewrite (proj2 (strict_ne_false _ _) Heq), (proj2 (strict_ne_true _ _) Hne).
  - intros accountNumber companyId account Ha Hne.
    unfold TenantBankingService.getAccountBalance. rewrite Ha.
    by rewrite (proj2 (strict_ne_true _ _) Hne).
Qed.

Lemma company_mismatch_reported_witness :
  TenantBankingService.processTransaction
    (mkTransaction acctZ acctA 100 "alpha-sales") test_service
    = (inl (CompanyMismatchError "alpha-sales" "beta-sales"), test_service)
  /\ TenantBankingService.processTransaction
    (mkTransaction acctA acctZ 100 "alpha-sales") test_service
    = (inl (CompanyMismatchError "alpha-sales" "beta-sales"), test_service)
  /\ TenantBankingService.getAccountBalance acctA "beta-sales" test_service
    = (inl (CompanyMismatchError "beta-sales" "alpha-sales"), test_service).
Proof.
  destruct (company_mismatch_reported test_service) as [Hp Hb].
  split; [|split].
  - exact (proj1 (Hp (mkTransaction acctZ acctA 100 "alpha-sales")
                     (mkAccount acctZ 1000 "beta-sales") (mkAccount acctA 5000 "alpha-sales")
                     eq_refl eq_refl) ltac:(discriminate)).
  - exact (proj2 (Hp (mkTransaction acctA acctZ 100 "alpha-sales")
                     (mkAccount acctA 5000 "alpha-sales") (mkAccount acctZ 1000 "beta-sales")
                     eq_refl eq_refl) eq_refl ltac:(discriminate)).
  - exact (Hb acctA "beta-sales" (mkAccount acctA 5000 "alpha-sales")
              eq_refl ltac:(discriminate)).
Defined.

(** C2: processTransaction (tenant-aware revision) checks existence, then
    the companies, then the funds; the first check that fails decides the
    exception; and whenever the call throws, one of the three checks has
    failed and the state is the one before the call. *)
Theorem processTransaction_validation_order
    (this : BankingState) (transaction : TransactionEntity.t) :
  let from := TransactionEntity.getFromAccount transaction in
  let to := TransactionEntity.getToAccount transaction in
  let amount := TransactionEntity.getAmount transaction in
  let tenant := TransactionEntity.getCompanyId transaction in
  let outcome := TenantBankingService.processTransaction transaction this in
  (Map_get from this = None \/ Map_get to this = None ->
     exists n, outcome = (inl (AccountNotFoundError n), this))
  /\ (forall src dst,
        Map_get from this = Some src -> Map_get to this = Some dst ->
        getCompanyId src <> tenant \/ getCompanyId dst <> tenant ->
        exists actual, outcome = (inl (CompanyMismatchError tenant actual), this))
  /\ (forall src dst,
        Map_get from this = Some src -> Map_get to this = Some dst ->
        getCompanyId src = tenant -> getCompanyId dst = tenant ->
        canWithdraw src amount = false ->
        outcome = (inl (InsufficientFundsError (getAccountNumber src) amount
                          (getBalance src)), this))
  /\ (forall e this', outcome = (inl e, this') ->
        this' = this
        /\ (Map_get from this = None \/ Map_get to this = None
            \/ exists src dst,
                 Map_get from this = Some src /\ Map_get to this = Some dst
                 /\ (getCompanyId src <> tenant \/ getCompanyId dst <> tenant
                     \/ canWithdraw src amount = false))).
Proof.
  intros from to amount tenant outcome.
  unfold outcome, TenantBankingService.processTransaction.
  fold from to amount tenant.
  destruct (Map_get from this) as [src|] eqn:Hs;
    [destruct (Map_get to this) as [dst|] eqn:Hd|].
  - destruct (TenantBankingService.strict_ne (getCompanyId src) tenant) eqn:Ets;
      [|destruct (TenantBankingService.strict_ne (getCompanyId dst) tenant) eqn:Etd;
        [|destruct (canWithdraw src amount) eqn:Hc]];
      cbn [orb negb];
      try (apply strict_ne_true in Ets); try (apply strict_ne_false in Ets);
      try (apply strict_ne_true in Etd); try (apply strict_ne_false in Etd).
    + split_and!.
      * intros [?|?]; discriminate.
      * intros ? ? _ _ _. eauto.
      * intros ? ? [= <-] _ ? _ _. contradiction.
      * intros e this' [= _ ->]. split; [done|].
        right; right. exists src, dst. auto.
    + split_and!.
      * intros [?|?]; discriminate.
      * intros ? ? _ _ _. eauto.
      * intros ? ? _ [= <-] _ ? _. contradiction.
      * intros e this' [= _ ->]. split; [done|].
        right; right. exists src, dst. auto.
    + rewrite (debit_then_credit from to amount this src dst Hs Hd Hc). split_and!.
      * intros [?|?]; discriminate.
      * intros ? ? [= <-] [= <-] [?|?]; contradiction.
      * intros ? ? [= <-] _ _ _ ?. congruence.
      * discriminate.
    + split_and!.
      * intros [?|?]; discriminate.
      * intros ? ? [= <-] [= <-] [?|?]; contradiction.
      * by intros ? ? [= <-] _ _ _ _.
      * intros e this' [= _ ->]. split; [done|].
        right; right. exists src, dst. auto.
  - split_and!.
    + intros _. eauto.
    + intros ? ? _ ?. discriminate.
    + intros ? ? _ ?. discriminate.
    + intros e this' [= _ ->]. auto.
  - split_and!.
    + intros _. eauto.
    + intros ? ? ?. discriminate.
    + intros ? ? ?. discriminate.
    + intros e this' [= _ ->]. auto.
Qed.

Lemma processTransaction_validation_order_witness :
  (exists n,
     TenantBankingService.processTransaction
       (mkTransaction acctZ "0000000000000000" 5000 "alpha-sales") test_service
     = (inl (AccountNotFoundError n), test_service))
  /\ (exists actual,
     TenantBankingService.processTransaction
       (mkTransaction acctZ acctA 5000 "alpha-sales") test_service
     = (inl (CompanyMismatchError "alpha-sales" actual), test_service))
  /\ TenantBankingService.processTransaction
       (mkTransaction acctB acctA 1000 "alpha-sales") test_service
     = (inl (InsufficientFundsError acctB 1000 550), test_service).
Proof.
  split_and!.
  - pose proof (processTransaction_validation_order test_service
                  (mkTransaction acctZ "0000000000000000" 5000 "alpha-sales")) as H.
    cbn zeta in H. destruct H as (H & _). exact (H (or_intror eq_refl)).
  - pose proof (processTransaction_validation_order test_service
                  (mkTransaction acctZ acctA 5000 "alpha-sales")) as H.
    cbn zeta in H. destruct H as (_ & H & _).
    apply (H (mkAccount acctZ 1000 "beta-sales") (mkAccount acctA 5000 "alpha-sales"));
      [reflexivity|reflexivity|left; discriminate].
  - pose proof (processTransaction_validation_order test_service
                  (mkTransaction acctB acctA 1000 "alpha-sales")) as H.
    cbn zeta in H. destruct H as (_ & _ & H & _).
    apply (H (mkAccount acctB 550 "alpha-sales") (mkAccount acctA 5000 "alpha-sales"));
      reflexivity.
Defined.

Lemma zod_result_issues {A} (issues : list ZodIssue) (a : A) :
  issues <> [] -> zod_result issues a = inl (ZodError issues).
Proof. by destruct issues. Qed.

Lemma zod_result_inr {A} (issues : list ZodIssue) (a b : A) :
  zod_result issues a = inr b -> issues = [] /\ b = a.
Proof. destruct issues; [by intros [= ->]|discriminate]. Qed.

Lemma check_positive_nonpositive (p : string) (amount : number) :
  (amount <=? 0)%float = true -> check_positive p amount <> [].
Proof.
  intros H. unfold check_positive. rewrite H. by destruct (is_nan amount).
Qed.

Lemma TransactionEntity_new_nonpositive (input : TransactionEntity.Transaction) :
  (TransactionEntity.amount input <=? 0)%float = true ->
  exists issues, TransactionEntity.new input = inl (ZodError issues).
Proof.
  intros H. unfold TransactionEntity.new, TransactionEntity.TransactionSchema_parse.
  rewrite zod_result_issues; [eauto|].
  intros Happ. apply app_eq_nil in Happ as [_ Happ]. apply app_eq_nil in Happ as [_ Happ].
  exact (check_positive_nonpositive _ _ H Happ).
Qed.

(** C7: for every amount with [amount <= 0], transfer (both revisions)
    throws before looking anything up and leaves the state as it was; and no
    TransactionEntity can be constructed from such an amount, so constructing
    one and processing it throws (a ZodError) with the state as it was. *)
Theorem nonpositive_amount_rejected (this : BankingState)
    (from to : string) (amount : number) (tenant : string) :
  (amount <=? 0)%float = true ->
  let input :=
    {| TransactionEntity.fromAccount := from; TransactionEntity.toAccount := to;
       TransactionEntity.amount := amount; TransactionEntity.companyId := tenant |} in
  BankingService.transfer from to amount this
    = (inl (Error "Amount must be greater than 0"), this)
  /\ TenantBankingService.transfer from to amount tenant this
    = (inl (Error "Amount must be greater than 0"), this)
  /\ (exists issues,
        construct_and_process BankingService.processTransaction input this
        = (inl (ZodError issues), this))
  /\ (exists issues,
        construct_and_process TenantBankingService.processTransaction input this
        = (inl (ZodError issues), this)).
Proof.
  intros H input.
  destruct (TransactionEntity_new_nonpositive input H) as [issues Hnew].
  unfold BankingService.transfer, TenantBankingService.transfer, construct_and_process.
  rewrite H, Hnew. eauto 6.
Qed.

Lemma nonpositive_amount_rejected_witness :
  BankingService.transfer acctA acctB (-100) test_service
    = (inl (Error "Amount must be greater than 0"), test_service)
  /\ TenantBankingService.transfer acctA acctB (-100) "alpha-sales" test_service
    = (inl (Error "Amount must be greater than 0"), test_service).
Proof.
  pose proof (nonpositive_amount_rejected test_service acctA acctB (-100) "alpha-sales"
                eq_refl) as H.
  cbn zeta in H. destruct H as (H1 & H2 & _). split; [exact H1|exact H2].
Defined.

(** The amount check is the constructor's alone: processTransaction has
    none of its own, and on an entity that did not go through the
    constructor a negative amount moves money the other way. *)
Remark processTransaction_relies_on_constructor :
  let this' :=
    snd (TenantBankingService.processTransaction
           (mkTransaction acctA acctB (-100) "alpha-sales") test_service) in
  getBalance <$> Map_get acctA this' = Some 5100%float
  /\ getBalance <$> Map_get acctB this' = Some 450%float.
Proof. vm_compute. split; reflexivity. Qed.

End Validation.

(** ** The account's own operations *)

Section Entity.
Import AccountEntity.

(** C8 (as amended): canWithdraw(amount) is true exactly when
    [balance >= amount]; withdraw(amount) throws exactly when canWithdraw is
    false (a plain Error, message "Insufficient funds"), leaving the account
    as it was, and otherwise sets the balance to the binary64 difference
    [balance - amount]; and debiting the whole of a finite balance succeeds
    and leaves 0. *)
Theorem withdraw_guarded_by_canWithdraw (this : t) (amount : number) :
  (canWithdraw this amount = true <-> (amount <=? getBalance this)%float = true)
  /\ (canWithdraw this amount = false ->
      withdraw amount this = (inl (Error "Insufficient funds"), this))
  /\ (canWithdraw this amount = true ->
      withdraw amount this = (inr tt, set_balance this (getBalance this - amount)%float)
      /\ getBalance (snd (withdraw amount this)) = (getBalance this - amount)%float)
  /\ (forall e this', withdraw amount this = (inl e, this') ->
      canWithdraw this amount = false)
  /\ (is_finite (getBalance this) = true ->
      withdraw (getBalance this) this = (inr tt, set_balance this 0%float)).
Proof.
  split_and!.
  - reflexivity.
  - apply withdraw_fail.
  - intros H. by rewrite (withdraw_ok _ _ H).
  - intros e this'. unfold withdraw. by destruct (canWithdraw this amount).
  - intros Hfin. rewrite withdraw_ok.
    + by rewrite (sub_diag _ Hfin).
    + apply leb_refl. unfold is_finite in Hfin.
      by apply negb_true_iff, orb_false_iff in Hfin as [? _].
Qed.

Lemma withdraw_guarded_by_canWithdraw_witness :
  withdraw 2000 (mkAccount "1234567890123456" 1000 "test-company")
    = (inl (Error "Insufficient funds"), mkAccount "1234567890123456" 1000 "test-company")
  /\ withdraw 500 (mkAccount "1234567890123456" 1000 "test-company")
    = (inr tt, mkAccount "1234567890123456" 500 "test-company")
  /\ withdraw 1000 (mkAccount "1234567890123456" 1000 "test-company")
    = (inr tt, mkAccount "1234567890123456" 0 "test-company").
Proof.
  pose proof (withdraw_guarded_by_canWithdraw
                (mkAccount "1234567890123456" 1000 "test-company")) as H.
  split_and!.
  - destruct (H 2000%float) as (_ & Hfail & _). exact (Hfail eq_refl).
  - destruct (H 500%float) as (_ & _ & Hok & _). exact (proj1 (Hok eq_refl)).
  - destruct (H 1000%float) as (_ & _ & _ & _ & Hall). exact (Hall eq_refl).
Defined.

(** C8 (as stated) fails on an infinite balance, which the schema accepts:
    the debit of the whole balance succeeds and leaves NaN. *)
Lemma infinite_balance_debit_leaves_nan :
  new {| accountNumber := acctA; balance := infinity; companyId := "alpha-sales" |}
    = inr (mkAccount acctA infinity "alpha-sales")
  /\ withdraw infinity (mkAccount acctA infinity "alpha-sales")
    = (inr tt, mkAccount acctA nan "alpha-sales")
  /\ ~ whole_balance_debit_leaves_zero (mkAccount acctA infinity "alpha-sales").
Proof.
  split_and!; [reflexivity|reflexivity|].
  intros (this' & Hrun & Hzero). vm_compute in Hrun. injection Hrun as <-.
  float_discriminate Hzero.
Qed.

(** C10: deposit(amount) never throws and sets the balance to the binary64
    sum [balance + amount], whatever the amount; and when the amount is
    negative and larger in magnitude than the balance, the new balance is
    below zero. *)
Theorem deposit_unchecked (this : t) (amount : number) :
  deposit amount this = (inr tt, set_balance this (getBalance this + amount)%float)
  /\ getBalance (snd (deposit amount this)) = (getBalance this + amount)%float
  /\ getAccountNumber (snd (deposit amount this)) = getAccountNumber this
  /\ getCompanyId (snd (deposit amount this)) = getCompanyId this
  /\ ((amount <? 0)%float = true -> (getBalance this <? abs amount)%float = true ->
      (getBalance (snd (deposit amount this)) <? 0)%float = true).
Proof.
  split_and!; try reflexivity.
  intros Hneg Hmag. cbn. by apply add_negative.
Qed.

Lemma deposit_unchecked_witness :
  (getBalance (snd (deposit (-1500) (mkAccount "1234567890123456" 1000 "test-company")))
   <? 0)%float = true.
Proof.
  destruct (deposit_unchecked (mkAccount "1234567890123456" 1000 "test-company")
              (-1500)%float) as (_ & _ & _ & _ & H).
  exact (H eq_refl eq_refl).
Defined.

(** C9: on the ledger with A at 5000.00 and B at 550.00 (both revisions of
    the service), the transfer of 0.01 from A to B succeeds and leaves
    balances equal to the literals 4999.99 and 550.01: the binary64
    difference and sum are the nearest binary64 values of these decimals, and
    no rounding step is applied to them. *)
Theorem one_cent_transfer_is_exact :
  let transaction := mkTransaction acctA acctB 0.01 "alpha-sales" in
  fst (BankingService.processTransaction transaction test_service) = inr tt
  /\ fst (TenantBankingService.processTransaction transaction test_service) = inr tt
  /\ snd (BankingService.processTransaction transaction test_service)
     = snd (TenantBankingService.processTransaction transaction test_service)
  /\ (let this' := snd (TenantBankingService.processTransaction transaction test_service) in
      getBalance <$> Map_get acctA this' = Some 4999.99%float
      /\ getBalance <$> Map_get acctB this' = Some 550.01%float
      /\ getBalance <$> Map_get acctC this' = Some 10000%float
      /\ getBalance <$> Map_get acctZ this' = Some 1000%float)
  /\ fst (TenantBankingService.getAccountBalance acctA "alpha-sales"
            (snd (TenantBankingService.transfer acctA acctB 0.01 "alpha-sales" test_service)))
     = inr 4999.99%float
  /\ fst (TenantBankingService.getAccountBalance acctB "alpha-sales"
            (snd (TenantBankingService.transfer acctA acctB 0.01 "alpha-sales" test_service)))
     = inr 550.01%float.
Proof. vm_compute. split_and!; reflexivity. Qed.

End Entity.

(** ** The convenience entry point against the constructor and processTransaction *)

Section EntryPoint.
Import AccountEntity.

Lemma check_account_number_valid (p s : string) :
  valid_account_number s = true -> check_account_number p s = [].
Proof.
  unfold valid_account_number, check_account_number.
  intros [Hlen Hre]%andb_true_iff. apply Nat.eqb_eq in Hlen.
  rewrite Hlen, Hre. reflexivity.
Qed.

Lemma check_positive_valid (p : string) (amount : number) :
  (0 <? amount)%float = true -> check_positive p amount = [].
Proof.
  intros H. destruct (ltb_not_nan _ _ H) as [H0 Hn].
  unfold check_positive. rewrite Hn.
  pose proof (ltb_negb_leb 0 amount H0 Hn) as E. rewrite H in E.
  by destruct (amount <=? 0)%float.
Qed.

Lemma check_positive_inv (p : string) (amount : number) :
  check_positive p amount = [] ->
  is_nan amount = false /\ (amount <=? 0)%float = false.
Proof.
  unfold check_positive. by destruct (is_nan amount), (amount <=? 0)%float.
Qed.

Lemma TransactionEntity_new_valid (input : TransactionEntity.Transaction) :
  valid_account_number (TransactionEntity.fromAccount input) = true ->
  valid_account_number (TransactionEntity.toAccount input) = true ->
  (0 <? TransactionEntity.amount input)%float = true ->
  TransactionEntity.new input = inr {| TransactionEntity.transaction := input |}.
Proof.
  intros Hf Ht Ha. unfold TransactionEntity.new, TransactionEntity.TransactionSchema_parse.
  by rewrite !check_account_number_valid, check_positive_valid.
Qed.

Lemma TransactionEntity_new_inv (input : TransactionEntity.Transaction)
    (transaction : TransactionEntity.t) :
  TransactionEntity.new input = inr transaction ->
  transaction = {| TransactionEntity.transaction := input |}
  /\ is_nan (TransactionEntity.amount input) = false
  /\ (TransactionEntity.amount input <=? 0)%float = false.
Proof.
  unfold TransactionEntity.new, TransactionEntity.TransactionSchema_parse.
  destruct (zod_result _ input) as [e|parsed] eqn:E; [discriminate|].
  intros [= <-]. apply zod_result_inr in E as [Hissues ->].
  apply app_eq_nil in Hissues as [_ Hissues]. apply app_eq_nil in Hissues as [_ Hissues].
  split; [done|]. by apply (check_positive_inv "amount").
Qed.

(** C4 (as amended): for every amount with [amount <= 0], transfer throws
    the generic Error("Amount must be greater than 0") before any lookup and
    leaves the state as it was, where constructing the transaction throws a
    ZodError instead; and for every amount [> 0] and every pair of valid
    16-digit account numbers, provided the source's balance (if the source
    exists) is not NaN, transfer(from, to, amount, tenant) has the outcome and
    the resulting state of constructing the transaction from these fields and
    calling processTransaction on it. *)
Theorem transfer_refines_processTransaction (this : BankingState)
    (from to : string) (amount : number) (tenant : string) :
  let input :=
    {| TransactionEntity.fromAccount := from; TransactionEntity.toAccount := to;
       TransactionEntity.amount := amount; TransactionEntity.companyId := tenant |} in
  ((amount <=? 0)%float = true ->
     TenantBankingService.transfer from to amount tenant this
     = (inl (Error "Amount must be greater than 0"), this)
     /\ exists issues,
          construct_and_process TenantBankingService.processTransaction input this
          = (inl (ZodError issues), this)
          /\ ZodError issues <> Error "Amount must be greater than 0")
  /\ (valid_account_number from = true ->
      valid_account_number to = true ->
      (0 <? amount)%float = true ->
      (forall src, Map_get from this = Some src -> is_nan (getBalance src) = false) ->
      TenantBankingService.transfer from to amount tenant this
      = construct_and_process TenantBankingService.processTransaction input this).
Proof.
  intros input. split.
  - intros H. split.
    + unfold TenantBankingService.transfer. by rewrite H.
    + destruct (TransactionEntity_new_nonpositive input H) as [issues Hnew].
      exists issues. unfold construct_and_process. by rewrite Hnew.
  - intros Hf Ht Ha Hsrc.
    unfold construct_and_process.
    rewrite (TransactionEntity_new_valid input Hf Ht Ha).
    destruct (ltb_not_nan _ _ Ha) as [H0 Hn].
    pose proof (ltb_negb_leb 0 amount H0 Hn) as E. rewrite Ha in E.
    unfold TenantBankingService.transfer, TenantBankingService.processTransaction.
    cbn [TransactionEntity.getFromAccount TransactionEntity.getToAccount
         TransactionEntity.getAmount TransactionEntity.getCompanyId
         TransactionEntity.transaction TransactionEntity.fromAccount
         TransactionEntity.toAccount TransactionEntity.amount
         TransactionEntity.companyId input].
    destruct (amount <=? 0)%float; [discriminate|].
    destruct (Map_get from this) as [src|] eqn:Hs; [|reflexivity].
    destruct (Map_get to this) as [dst|]; [|reflexivity].
    unfold canWithdraw, getBalance. fold (getBalance src).
    rewrite (ltb_negb_leb (getBalance src) amount (Hsrc src eq_refl) Hn).
    reflexivity.
Qed.

Lemma transfer_refines_processTransaction_witness :
  TenantBankingService.transfer acctA acctB 500 "alpha-sales" test_service
  = construct_and_process TenantBankingService.processTransaction
      {| TransactionEntity.fromAccount := acctA; TransactionEntity.toAccount := acctB;
         TransactionEntity.amount := 500; TransactionEntity.companyId := "alpha-sales" |}
      test_service
  /\ TenantBankingService.transfer acctA acctB 0 "alpha-sales" test_service
     = (inl (Error "Amount must be greater than 0"), test_service).
Proof.
  split.
  - pose proof (transfer_refines_processTransaction test_service acctA acctB 500
                  "alpha-sales") as H.
    cbn zeta in H. destruct H as [_ H]. apply H; try reflexivity.
    intros src Hsrc. vm_compute in Hsrc. by injection Hsrc as <-.
  - pose proof (transfer_refines_processTransaction test_service acctA acctB 0
                  "alpha-sales") as H.
    cbn zeta in H. destruct H as [H _]. exact (proj1 (H eq_refl)).
Defined.

(** C4 (as stated) fails in three ways: an account number that is not 16
    digits reaches the lookup in transfer but not the transaction's
    constructor; a NaN amount passes the [amount <= 0] guard of transfer; and
    on a NaN source balance transfer's own [balance < amount] check passes,
    so that withdraw throws its plain Error in place of
    InsufficientFundsError. *)
Lemma transfer_differs_from_construct_and_process :
  (fst (TenantBankingService.transfer "abc" acctB 100 "alpha-sales" test_service)
     = inl (AccountNotFoundError "abc")
   /\ fst (construct_and_process TenantBankingService.processTransaction
             {| TransactionEntity.fromAccount := "abc"; TransactionEntity.toAccount := acctB;
                TransactionEntity.amount := 100;
                TransactionEntity.companyId := "alpha-sales" |} test_service)
     = inl (ZodError [ {| code := too_small; path := "fromAccount" |};
                       {| code := invalid_string; path := "fromAccount" |} ])
   /\ ~ transfer_is_construct_and_process test_service "abc" acctB 100 "alpha-sales")
  /\ (fst (TenantBankingService.transfer acctA acctB nan "alpha-sales" test_service)
     = inl (Error "Insufficient funds")
   /\ ~ transfer_is_construct_and_process test_service acctA acctB nan "alpha-sales")
  /\ (getBalance <$> Map_get acctA nan_service = Some nan
   /\ fst (TenantBankingService.transfer acctA acctB 5 "alpha-sales" nan_service)
     = inl (Error "Insufficient funds")
   /\ fst (construct_and_process TenantBankingService.processTransaction
             {| TransactionEntity.fromAccount := acctA; TransactionEntity.toAccount := acctB;
                TransactionEntity.amount := 5;
                TransactionEntity.companyId := "alpha-sales" |} nan_service)
     = inl (InsufficientFundsError acctA 5 nan)
   /\ ~ transfer_is_construct_and_process nan_service acctA acctB 5 "alpha-sales").
Proof.
  split_and!; try (vm_compute; reflexivity); intros [Hnonpos Hpos].
  - specialize (Hpos eq_refl). vm_compute in Hpos. discriminate Hpos.
  - specialize (Hnonpos eq_refl). vm_compute in Hnonpos. discriminate Hnonpos.
  - specialize (Hpos eq_refl). vm_compute in Hpos. discriminate Hpos.
Qed.

End EntryPoint.

(** ** Balances stay non-negative *)

Section Invariant.
Import AccountEntity.

Lemma AccountEntity_new_nonneg (input : Account) (a : t) :
  new input = inr a -> (0 <=? getBalance a)%float = true.
Proof.
  unfold new, AccountSchema_parse.
  destruct (zod_result _ input) as [e|parsed] eqn:E; [discriminate|].
  intros [= <-]. apply zod_result_inr in E as [Hissues ->].
  apply app_eq_nil in Hissues as [_ Hb]. unfold check_min0 in Hb.
  unfold getBalance. cbn [account].
  destruct (is_nan (balance input)) eqn:Hn; [discriminate|].
  destruct (balance input <? 0)%float eqn:Hlt; [discriminate|].
  rewrite (ltb_negb_leb _ 0 Hn eq_refl) in Hlt. by apply negb_false_iff in Hlt.
Qed.

Lemma construct_accounts_nonneg (inputs : list Account) (entities : list t) :
  construct_accounts inputs = inr entities ->
  Forall (fun a => (0 <=? getBalance a)%float = true) entities.
Proof.
  revert entities. induction inputs as [|input rest IH]; intros entities; cbn.
  - intros [= <-]. constructor.
  - destruct (new input) as [e|a] eqn:Ha; [discriminate|].
    destruct (construct_accounts rest) as [e|l]; [discriminate|].
    intros [= <-]. constructor; [by eapply AccountEntity_new_nonneg|by apply IH].
Qed.

Lemma Map_set_nonneg (k : string) (a : t) (this : BankingState) :
  balances_nonnegative this -> (0 <=? getBalance a)%float = true ->
  balances_nonnegative (Map_set k a this).
Proof.
  intros Hinv Ha k' a'. unfold Map_set; cbn [accounts].
  destruct (decide (k = k')) as [->|Hne].
  - rewrite lookup_insert_eq. by intros [= <-].
  - rewrite lookup_insert_ne by done. apply Hinv.
Qed.

Lemma BankingService_new_nonneg (entities : list t) :
  Forall (fun a => (0 <=? getBalance a)%float = true) entities ->
  balances_nonnegative (BankingService_new entities).
Proof.
  unfold BankingService_new.
  assert (Hgen : forall this, balances_nonnegative this ->
             Forall (fun a => (0 <=? getBalance a)%float = true) entities ->
             balances_nonnegative
               (foldl (fun this a => Map_set (getAccountNumber a) a this) this entities)).
  { induction entities as [|a l IH]; intros this Hinv Hall; [done|].
    inversion Hall; subst. cbn [foldl]. apply IH; [|done]. by apply Map_set_nonneg. }
  apply Hgen. intros k a. unfold Map_empty; cbn. by rewrite lookup_empty.
Qed.

(** The state after a debit and a credit that passed the checks. *)
Lemma debit_credit_nonneg (from to : string) (amount : number)
    (this : BankingState) (src dst : t) :
  balances_nonnegative this ->
  accounts this !! from = Some src ->
  accounts this !! to = Some dst ->
  canWithdraw src amount = true ->
  (amount <=? 0)%float = false ->
  (amount =? infinity)%float = false ->
  balances_nonnegative
    (snd ((invoke from (withdraw amount) ;; invoke to (deposit amount)) this)).
Proof.
  intros Hinv Hs Hd Hc Hpos Hfin.
  rewrite (debit_then_credit from to amount this src dst Hs Hd Hc). cbn [snd].
  destruct (leb_not_nan _ _ Hc) as [Hn _].
  assert (Ha : (0 <=? amount)%float = true).
  { apply ltb_leb. rewrite (ltb_negb_leb 0 amount eq_refl Hn). by rewrite Hpos. }
  assert (Hsrc' : (0 <=? getBalance src - amount)%float = true)
    by (apply sub_nonneg; done).
  assert (Hd0 : (0 <=? getBalance
                         (credited_object from to
                            (set_balance src (getBalance src - amount)%float) dst))%float
                = true).
  { unfold credited_object. destruct (decide (from = to)); [done|]. by eapply Hinv. }
  intros k a. cbn [accounts].
  destruct (decide (to = k)) as [->|Hnt].
  - rewrite lookup_insert_eq. intros [= <-]. by apply add_nonneg.
  - rewrite lookup_insert_ne by done.
    destruct (decide (from = k)) as [->|Hnf].
    + rewrite lookup_insert_eq. by intros [= <-].
    + rewrite lookup_insert_ne by done. apply Hinv.
Qed.

Lemma invoke_withdraw_refused (from : string) (amount : number)
    (this : BankingState) (src : t) {A} (k : unit -> M A) :
  accounts this !! from = Some src ->
  canWithdraw src amount = false ->
  (invoke from (withdraw amount) ≫= k) this = (inl (Error "Insufficient funds"), this).
Proof.
  intros Hs Hc. rewrite bind_run, (invoke_run _ _ _ _ Hs), (withdraw_fail _ _ Hc).
  cbn [fst snd]. by rewrite (insert_id _ _ _ Hs), state_eta.
Qed.

Lemma processTransaction_nonneg (this : BankingState) (transaction : TransactionEntity.t) :
  balances_nonnegative this ->
  (TransactionEntity.getAmount transaction <=? 0)%float = false ->
  (TransactionEntity.getAmount transaction =? infinity)%float = false ->
  balances_nonnegative (snd (TenantBankingService.processTransaction transaction this)).
Proof.
  intros Hinv Hpos Hfin. unfold TenantBankingService.processTransaction.
  destruct (Map_get _ this) as [src|] eqn:Hs; [|done].
  destruct (Map_get (TransactionEntity.getToAccount transaction) this) as [dst|] eqn:Hd;
    [|done].
  destruct (_ || _); [done|].
  destruct (canWithdraw src _) eqn:Hc; [|done].
  by eapply debit_credit_nonneg.
Qed.

Lemma transfer_nonneg (this : BankingState) (from to : string) (amount : number)
    (tenant : string) :
  balances_nonnegative this ->
  (amount =? infinity)%float = false ->
  balances_nonnegative (snd (TenantBankingService.transfer from to amount tenant this)).
Proof.
  intros Hinv Hfin. unfold TenantBankingService.transfer.
  destruct (amount <=? 0)%float eqn:Hpos; [done|].
  destruct (Map_get from this) as [src|] eqn:Hs; [|done].
  destruct (Map_get to this) as [dst|] eqn:Hd; [|done].
  destruct (_ || _); [done|].
  destruct (getBalance src <? amount)%float; [done|].
  destruct (canWithdraw src amount) eqn:Hc.
  - by eapply debit_credit_nonneg.
  - by rewrite (invoke_withdraw_refused _ _ _ _ _ Hs Hc).
Qed.

Lemma after_call_nonneg (c : Call) (this : BankingState) :
  balances_nonnegative this ->
  (forall a, call_amount c = Some a -> (a =? infinity)%float = false) ->
  balances_nonnegative (after_call c this).
Proof.
  intros Hinv Hfin. destruct c as [input|from to amount tenant|n tenant|]; cbn [after_call].
  - unfold construct_and_process.
    destruct (TransactionEntity.new input) as [e|transaction] eqn:Hnew; [done|].
    apply TransactionEntity_new_inv in Hnew as (-> & _ & Hpos).
    apply processTransaction_nonneg; [done|done|]. by apply Hfin.
  - apply transfer_nonneg; [done|]. by apply Hfin.
  - unfold TenantBankingService.getAccountBalance.
    destruct (Map_get n this) as [a|]; [|done].
    by destruct (TenantBankingService.strict_ne _ _).
  - done.
Qed.

Lemma after_calls_nonneg (calls : list Call) (this : BankingState) :
  balances_nonnegative this -> finite_amounts calls ->
  balances_nonnegative (after_calls calls this).
Proof.
  unfold after_calls. revert this.
  induction calls as [|c cs IH]; intros this Hinv Hfin; [done|].
  cbn [foldl]. apply IH.
  - apply after_call_nonneg; [done|]. intros a. apply Hfin. by left.
  - intros c' a Hin. apply Hfin. by right.
Qed.

(** C3 (as amended): for every ledger built from accounts that passed the
    validating constructor, and every sequence of processTransaction (on
    transactions that passed their validating constructor), transfer,
    getAccountBalance and getAllAccounts calls in which no amount is
    +Infinity, every balance in the ledger compares [>= 0] after every call
    of the sequence, whether the call returned or threw. *)
Theorem balances_stay_nonnegative
    (inputs : list Account) (entities : list t) (calls : list Call) :
  construct_accounts inputs = inr entities ->
  finite_amounts calls ->
  forall n, balances_nonnegative (after_calls (take n calls) (BankingService_new entities)).
Proof.
  intros Hnew Hfin n. apply after_calls_nonneg.
  - by apply BankingService_new_nonneg, (construct_accounts_nonneg inputs).
  - intros c a Hin. apply Hfin. rewrite <- (take_drop n calls).
    apply elem_of_app. by left.
Qed.

Lemma balances_stay_nonnegative_witness :
  balances_nonnegative
    (after_calls
       [ call_processTransaction
           {| TransactionEntity.fromAccount := acctA; TransactionEntity.toAccount := acctB;
              TransactionEntity.amount := 5000; TransactionEntity.companyId := "alpha-sales" |};
         call_transfer acctA acctB 1 "alpha-sales";
         call_getAccountBalance acctA "alpha-sales";
         call_getAllAccounts ]
       (BankingService_new
          [ mkAccount acctA 5000 "alpha-sales"; mkAccount acctB 550 "alpha-sales" ])).
Proof.
  refine (balances_stay_nonnegative
            [ {| accountNumber := acctA; balance := 5000; companyId := "alpha-sales" |};
              {| accountNumber := acctB; balance := 550; companyId := "alpha-sales" |} ]
            _
            [ call_processTransaction
                {| TransactionEntity.fromAccount := acctA;
                   TransactionEntity.toAccount := acctB;
                   TransactionEntity.amount := 5000;
                   TransactionEntity.companyId := "alpha-sales" |};
              call_transfer acctA acctB 1 "alpha-sales";
              call_getAccountBalance acctA "alpha-sales";
              call_getAllAccounts ]
            eq_refl _ 4%nat).
  intros c a Hin Hc.
  repeat (apply elem_of_cons in Hin as [->|Hin];
          [cbn in Hc; first [discriminate Hc|by injection Hc as <-]|]).
  by apply elem_of_nil in Hin.
Defined.

(** C3 (as stated) fails when an amount is +Infinity: both schemas accept
    infinite values, the funds check [Infinity >= Infinity] passes, and the
    debit leaves NaN, which does not compare [>= 0]. *)
Lemma infinite_transfer_leaves_nan :
  construct_accounts infinite_inputs
    = inr [ mkAccount acctA infinity "alpha-sales"; mkAccount acctB 0 "alpha-sales" ]
  /\ TransactionEntity.new infinite_transfer
    = inr {| TransactionEntity.transaction := infinite_transfer |}
  /\ getBalance <$> Map_get acctA nan_service = Some nan
  /\ ~ (forall inputs entities calls,
          construct_accounts inputs = inr entities ->
          balances_nonnegative (after_calls calls (BankingService_new entities))).
Proof.
  split_and!; try (vm_compute; reflexivity).
  intros H.
  specialize (H infinite_inputs _ [ call_processTransaction infinite_transfer ] eq_refl
                acctA (mkAccount acctA nan "alpha-sales")).
  discriminate H. vm_compute. reflexivity.
Qed.

End Invariant.

(** * Further properties of the code *)

(** ** The two constructors *)

Section Constructors.
Import AccountEntity.

Lemma check_account_number_inv (p s : string) :
  check_account_number p s = [] -> valid_account_number s = true.
Proof.
  unfold check_account_number, valid_account_number.
  intros [Hlen Hre]%app_eq_nil.
  destruct (digits_regex s); [|discriminate].
  destruct (16 <? String.length s)%nat eqn:Hbig; [discriminate|].
  destruct (String.length s <? 16)%nat eqn:Hsmall; [discriminate|].
  apply Nat.ltb_ge in Hbig, Hsmall.
  rewrite andb_true_r. apply Nat.eqb_eq. lia.
Qed.

Lemma check_min0_nil (p : string) (b : number) :
  check_min0 p b = [] <-> (0 <=? b)%float = true.
Proof.
  unfold check_min0. split.
  - destruct (is_nan b) eqn:Hn; [discriminate|].
    destruct (b <? 0)%float eqn:Hlt; [discriminate|]. intros _.
    rewrite (ltb_negb_leb _ 0 Hn eq_refl) in Hlt. by apply negb_false_iff in Hlt.
  - intros Hle. destruct (leb_not_nan _ _ Hle) as [_ Hn]. rewrite Hn.
    by rewrite (ltb_negb_leb _ 0 Hn eq_refl), Hle.
Qed.

Lemma check_positive_nil (p : string) (a : number) :
  check_positive p a = [] <-> (0 <? a)%float = true.
Proof.
  split; [|apply check_positive_valid].
  intros [Hn Hpos]%check_positive_inv.
  by rewrite (ltb_negb_leb 0 a eq_refl Hn), Hpos.
Qed.

Lemma zod_result_cases {A} (issues : list ZodIssue) (a : A) :
  (issues = [] /\ zod_result issues a = inr a)
  \/ (issues <> [] /\ zod_result issues a = inl (ZodError issues)).
Proof. destruct issues; [by left|by right]. Qed.

(** X1: [new AccountEntity(input)] succeeds exactly when the account number
    is 16 digits and the balance compares [>= 0] (so it is not NaN); the
    entity then returns the three fields it was given.  Every failure is a
    ZodError with at least one issue. *)
Theorem AccountEntity_new_accepts (input : Account) :
  (forall a, new input = inr a <->
     valid_account_number (accountNumber input) = true
     /\ (0 <=? balance input)%float = true
     /\ getAccountNumber a = accountNumber input
     /\ getBalance a = balance input
     /\ getCompanyId a = companyId input)
  /\ (forall e, new input = inl e -> exists issues, e = ZodError issues /\ issues <> []).
Proof.
  unfold new, AccountSchema_parse.
  destruct (zod_result_cases
              (check_account_number "accountNumber" (accountNumber input)
               ++ check_min0 "balance" (balance input)) input) as [[Hnil ->]|[Hne ->]].
  - apply app_eq_nil in Hnil as [Hnum Hbal].
    apply check_account_number_inv in Hnum. apply check_min0_nil in Hbal.
    split; [|discriminate]. intros a. split.
    + by intros [= <-].
    + intros (_ & _ & Hn & Hb & Hc). f_equal.
      destruct a as [[n b c]], input as [n' b' c']. cbn in *. by subst.
  - split; [|intros e [= <-]; eauto]. intros a. split; [discriminate|].
    intros (Hnum & Hbal & _). destruct Hne.
    by rewrite (check_account_number_valid _ _ Hnum), (proj2 (check_min0_nil _ _) Hbal).
Qed.

(** X2: [new TransactionEntity(input)] succeeds exactly when both account
    numbers are 16 digits and the amount compares [> 0]; nothing else is
    checked (the two numbers may be equal), and the entity returns the fields
    it was given.  Every failure is a ZodError with at least one issue. *)
Theorem TransactionEntity_new_accepts (input : TransactionEntity.Transaction) :
  (forall t, TransactionEntity.new input = inr t <->
     valid_account_number (TransactionEntity.fromAccount input) = true
     /\ valid_account_number (TransactionEntity.toAccount input) = true
     /\ (0 <? TransactionEntity.amount input)%float = true
     /\ TransactionEntity.getFromAccount t = TransactionEntity.fromAccount input
     /\ TransactionEntity.getToAccount t = TransactionEntity.toAccount input
     /\ TransactionEntity.getAmount t = TransactionEntity.amount input
     /\ TransactionEntity.getCompanyId t = TransactionEntity.companyId input)
  /\ (forall e, TransactionEntity.new input = inl e ->
        exists issues, e = ZodError issues /\ issues <> []).
Proof.
  split.
  - intros t. split.
    + intros Hnew. pose proof Hnew as (-> & _ & _)%TransactionEntity_new_inv.
      unfold TransactionEntity.new, TransactionEntity.TransactionSchema_parse in Hnew.
      destruct (zod_result _ input) as [e|parsed] eqn:E; [discriminate|].
      apply zod_result_inr in E as [Hissues _].
      apply app_eq_nil in Hissues as [Hf Hissues].
      apply app_eq_nil in Hissues as [Ht Ha].
      apply check_account_number_inv in Hf, Ht. apply check_positive_nil in Ha.
      by split_and!.
    + intros (Hf & Ht & Ha & H1 & H2 & H3 & H4).
      rewrite (TransactionEntity_new_valid input Hf Ht Ha). f_equal.
      destruct t as [[f' t' a' c']], input as [f'' t'' a'' c'']. cbn in *. by subst.
  - intros e. unfold TransactionEntity.new, TransactionEntity.TransactionSchema_parse.
    destruct (zod_result_cases
                (check_account_number "fromAccount" (TransactionEntity.fromAccount input)
                 ++ check_account_number "toAccount" (TransactionEntity.toAccount input)
                 ++ check_positive "amount" (TransactionEntity.amount input)) input)
      as [[_ ->]|[Hne ->]]; [discriminate|].
    intros [= <-]. eauto.
Qed.

End Constructors.

(** ** The constructor of the service and the account list *)

Section Ledger.
Import AccountEntity.

Lemma BankingService_new_snoc (l : list t) (a : t) :
  BankingService_new (l ++ [a])%list
  = Map_set (getAccountNumber a) a (BankingService_new l).
Proof. unfold BankingService_new. by rewrite foldl_app. Qed.

Lemma Map_get_set (k k' : string) (v : t) (this : BankingState) :
  Map_get k' (Map_set k v this) = if decide (k = k') then Some v else Map_get k' this.
Proof. unfold Map_get, Map_set; cbn [accounts]. apply lookup_insert. Qed.

Lemma Map_set_keys_listed (k : string) (v : t) (this : BankingState) :
  keys_listed this -> keys_listed (Map_set k v this).
Proof.
  intros [Hnd Hdom]. unfold keys_listed, Map_set; cbn [order accounts].
  destruct (accounts this !! k) as [old|] eqn:Hk.
  - split; [done|]. intros k'. rewrite Hdom, lookup_insert.
    destruct (decide (k = k')) as [<-|]; [|done]. rewrite Hk. split; eauto.
  - split.
    + apply NoDup_app. split_and!; [done| |apply NoDup_singleton].
      intros k' Hin ->%list_elem_of_singleton.
      apply Hdom in Hin as [? Hin]. congruence.
    + intros k'. rewrite elem_of_app, list_elem_of_singleton, Hdom, lookup_insert.
      destruct (decide (k = k')) as [<-|]; [split; eauto|].
      split; [intros [?|?]; [done|congruence]|by left].
Qed.

Lemma Map_set_keyed (v : t) (this : BankingState) :
  keyed_by_number this -> keyed_by_number (Map_set (getAccountNumber v) v this).
Proof.
  intros Hk k a. unfold Map_set; cbn [accounts]. rewrite lookup_insert.
  destruct (decide (getAccountNumber v = k)) as [<-|]; [by intros [= <-]|apply Hk].
Qed.

Lemma BankingService_new_invariants (l : list t) :
  keys_listed (BankingService_new l) /\ keyed_by_number (BankingService_new l).
Proof.
  induction l as [|a l [IH1 IH2]] using rev_ind.
  - split; [split; [constructor|]|].
    + intros k. cbn. rewrite lookup_empty. split; [by intros ?%elem_of_nil|by intros [? ?]].
    + intros k a. cbn. by rewrite lookup_empty.
  - rewrite BankingService_new_snoc.
    split; [by apply Map_set_keys_listed|by apply Map_set_keyed].
Qed.

Lemma BankingService_new_lookup (l : list t) (n : string) :
  Map_get n (BankingService_new l) = last (filter (fun a => getAccountNumber a = n) l).
Proof.
  induction l as [|a l IH] using rev_ind; [done|].
  rewrite BankingService_new_snoc, Map_get_set, filter_app, IH.
  rewrite filter_cons, filter_nil.
  destruct (decide (getAccountNumber a = n)) as [Heq|Hne].
  - by rewrite last_snoc.
  - by rewrite app_nil_r.
Qed.

(** X3: after [new BankingService(initialAccounts)], looking an account
    number up gives the last account of the list that carries this number,
    and nothing when no account of the list carries it: duplicates overwrite
    silently, and every account found carries the number it was looked up
    by. *)
Theorem BankingService_new_last_wins (l : list t) (n : string) :
  Map_get n (BankingService_new l) = last (filter (fun a => getAccountNumber a = n) l)
  /\ (forall a, Map_get n (BankingService_new l) = Some a ->
      a ∈ l /\ getAccountNumber a = n)
  /\ (Map_get n (BankingService_new l) = None <-> n ∉ getAccountNumber <$> l).
Proof.
  rewrite BankingService_new_lookup. split_and!; [done| |].
  - intros a [Hn Hin]%last_Some_elem_of%list_elem_of_filter. done.
  - rewrite last_None, list_elem_of_fmap. split.
    + intros Hnil (a & -> & Hin). by destruct (filter_nil_not_elem_of _ _ a Hnil eq_refl).
    + intros Hnot. destruct (filter _ l) as [|a rest] eqn:Hf; [done|].
      assert (Ha : a ∈ filter (fun a => getAccountNumber a = n) l)
        by (rewrite Hf; by left).
      apply list_elem_of_filter in Ha as [<- Hin]. destruct Hnot. eauto.
Qed.

Lemma omap_app_list {A B} (f : A -> option B) (l1 l2 : list A) :
  omap f (l1 ++ l2)%list = (omap f l1 ++ omap f l2)%list.
Proof.
  induction l1 as [|x l1 IH]; [done|]. cbn. rewrite IH. by destruct (f x).
Qed.

Lemma omap_ext_in {A B} (f g : A -> option B) (l : list A) :
  (forall x, x ∈ l -> f x = g x) -> omap f l = omap g l.
Proof.
  induction l as [|x l IH]; intros H; [done|]. cbn.
  rewrite (H x) by (by left). rewrite IH; [done|]. intros y Hy. apply H. by right.
Qed.

Lemma Map_values_fresh (k : string) (v : t) (this : BankingState) :
  keys_listed this -> accounts this !! k = None ->
  Map_values (Map_set k v this) = (Map_values this ++ [v])%list.
Proof.
  intros [_ Hdom] Hk. unfold Map_values, Map_set; cbn [order accounts]. rewrite Hk.
  rewrite omap_app_list. cbn. rewrite lookup_insert_eq. f_equal.
  apply omap_ext_in. intros k' Hin. rewrite lookup_insert_ne; [done|]. intros <-.
  apply Hdom in Hin as [? ?]. congruence.
Qed.

(** X4: when the accounts given to the constructor have pairwise different
    account numbers, getAllAccounts returns them all, in the order given. *)
Theorem getAllAccounts_of_distinct (l : list t) :
  NoDup (getAccountNumber <$> l) ->
  getAllAccounts (BankingService_new l) = (inr l, BankingService_new l).
Proof.
  intros Hnd. unfold getAllAccounts. f_equal. f_equal.
  induction l as [|a l IH] using rev_ind; [done|].
  rewrite fmap_app in Hnd. apply NoDup_app in Hnd as (Hl & Hfresh & _).
  rewrite BankingService_new_snoc, Map_values_fresh, IH; [done|done| |].
  - apply BankingService_new_invariants.
  - pose proof (BankingService_new_lookup l (getAccountNumber a)) as Hget.
    unfold Map_get in Hget. rewrite Hget.
    destruct (last _) as [b|] eqn:Hlast; [|done].
    apply last_Some_elem_of, list_elem_of_filter in Hlast as [Hb Hin].
    destruct (Hfresh (getAccountNumber a)).
    + rewrite <- Hb. by apply list_elem_of_fmap_2.
    + cbn. by left.
Qed.

Lemma getAllAccounts_of_distinct_witness :
  getAllAccounts test_service
  = (inr [ mkAccount acctA 5000 "alpha-sales"; mkAccount acctC 10000 "alpha-sales";
           mkAccount acctB 550 "alpha-sales"; mkAccount acctZ 1000 "beta-sales" ],
     test_service).
Proof.
  apply (getAllAccounts_of_distinct
           [ mkAccount acctA 5000 "alpha-sales"; mkAccount acctC 10000 "alpha-sales";
             mkAccount acctB 550 "alpha-sales"; mkAccount acctZ 1000 "beta-sales" ]).
  apply (bool_decide_unpack _). vm_compute. reflexivity.
Defined.

End Ledger.

(** ** How the four transfer paths end *)

Section Outcomes.
Import AccountEntity.

Lemma debit_credit_moved (from to : string) (amount : number)
    (this : BankingState) (src dst : t) :
  Map_get from this = Some src -> Map_get to this = Some dst ->
  canWithdraw src amount = true ->
  (invoke from (withdraw amount) ;; invoke to (deposit amount)) this
  = (inr tt, moved_state from to amount this src dst).
Proof. intros Hs Hd Hc. by rewrite (debit_then_credit _ _ _ _ _ _ Hs Hd Hc). Qed.

Lemma debit_credit_outcome (from to : string) (amount : number)
    (this : BankingState) (src dst : t) :
  Map_get from this = Some src -> Map_get to this = Some dst ->
  throws_or_moves from to amount this
    ((invoke from (withdraw amount) ;; invoke to (deposit amount)) this).
Proof.
  intros Hs Hd. destruct (canWithdraw src amount) eqn:Hc.
  - right. exists src, dst. by rewrite (debit_credit_moved _ _ _ _ _ _ Hs Hd Hc).
  - left. rewrite (invoke_withdraw_refused _ _ _ _ _ Hs Hc). eauto.
Qed.

Lemma plain_processTransaction_outcome (this : BankingState)
    (transaction : TransactionEntity.t) :
  throws_or_moves (TransactionEntity.getFromAccount transaction)
    (TransactionEntity.getToAccount transaction) (TransactionEntity.getAmount transaction)
    this (BankingService.processTransaction transaction this).
Proof.
  unfold BankingService.processTransaction.
  destruct (Map_get (TransactionEntity.getFromAccount transaction) this) as [src|] eqn:Hs;
    [|left; eauto].
  destruct (Map_get (TransactionEntity.getToAccount transaction) this) as [dst|] eqn:Hd;
    [|left; eauto].
  destruct (canWithdraw src _) eqn:Hc; cbn [negb]; [|left; eauto].
  right. exists src, dst. by rewrite (debit_credit_moved _ _ _ _ _ _ Hs Hd Hc).
Qed.

Lemma tenant_processTransaction_outcome (this : BankingState)
    (transaction : TransactionEntity.t) :
  throws_or_moves (TransactionEntity.getFromAccount transaction)
    (TransactionEntity.getToAccount transaction) (TransactionEntity.getAmount transaction)
    this (TenantBankingService.processTransaction transaction this).
Proof.
  unfold TenantBankingService.processTransaction.
  destruct (Map_get (TransactionEntity.getFromAccount transaction) this) as [src|] eqn:Hs;
    [|left; eauto].
  destruct (Map_get (TransactionEntity.getToAccount transaction) this) as [dst|] eqn:Hd;
    [|left; eauto].
  destruct (_ || _); [left; eauto|].
  destruct (canWithdraw src _) eqn:Hc; cbn [negb]; [|left; eauto].
  right. exists src, dst. by rewrite (debit_credit_moved _ _ _ _ _ _ Hs Hd Hc).
Qed.

Lemma plain_transfer_outcome (this : BankingState) (from to : string) (amount : number) :
  throws_or_moves from to amount this (BankingService.transfer from to amount this).
Proof.
  unfold BankingService.transfer.
  destruct (amount <=? 0)%float; [left; eauto|].
  destruct (Map_get from this) as [src|] eqn:Hs; [|left; eauto].
  destruct (Map_get to this) as [dst|] eqn:Hd; [|left; eauto].
  destruct (getBalance src <? amount)%float; [left; eauto|].
  by apply (debit_credit_outcome _ _ _ _ src dst).
Qed.

Lemma tenant_transfer_outcome (this : BankingState) (from to : string) (amount : number)
    (tenant : string) :
  throws_or_moves from to amount this
    (TenantBankingService.transfer from to amount tenant this).
Proof.
  unfold TenantBankingService.transfer.
  destruct (amount <=? 0)%float; [left; eauto|].
  destruct (Map_get from this) as [src|] eqn:Hs; [|left; eauto].
  destruct (Map_get to this) as [dst|] eqn:Hd; [|left; eauto].
  destruct (_ || _); [left; eauto|].
  destruct (getBalance src <? amount)%float; [left; eauto|].
  by apply (debit_credit_outcome _ _ _ _ src dst).
Qed.

Lemma construct_and_process_outcome (process : TransactionEntity.t -> M unit)
    (input : TransactionEntity.Transaction) (this : BankingState) :
  (forall transaction,
     throws_or_moves (TransactionEntity.getFromAccount transaction)
       (TransactionEntity.getToAccount transaction)
       (TransactionEntity.getAmount transaction) this (process transaction this)) ->
  throws_or_moves (TransactionEntity.fromAccount input) (TransactionEntity.toAccount input)
    (TransactionEntity.amount input) this (construct_and_process process input this).
Proof.
  intros H. unfold construct_and_process.
  destruct (TransactionEntity.new input) as [e|transaction] eqn:Hnew; [left; eauto|].
  apply TransactionEntity_new_inv in Hnew as (-> & _). apply H.
Qed.

(** What a debit and a credit keep: the key list, and the number and the
    company of every account. *)
Lemma moved_state_keeps (from to : string) (amount : number)
    (this : BankingState) (src dst : t) :
  Map_get from this = Some src -> Map_get to this = Some dst ->
  order (moved_state from to amount this src dst) = order this
  /\ forall k, account_identity <$> accounts (moved_state from to amount this src dst) !! k
             = account_identity <$> accounts this !! k.
Proof.
  unfold Map_get. intros Hs Hd. split; [done|]. intros k.
  unfold moved_state; cbn [accounts]. rewrite !lookup_insert.
  destruct (decide (to = k)) as [<-|Hnt].
  - rewrite Hd. unfold credited_object.
    destruct (decide (from = to)) as [->|]; [|done].
    by assert (src = dst) as -> by congruence.
  - destruct (decide (from = k)) as [<-|]; [|done]. by rewrite Hs.
Qed.

Lemma throws_or_moves_keeps (from to : string) (amount : number)
    (this : BankingState) (outcome : (Exception + unit) * BankingState) :
  throws_or_moves from to amount this outcome ->
  order (snd outcome) = order this
  /\ forall k, account_identity <$> accounts (snd outcome) !! k
             = account_identity <$> accounts this !! k.
Proof.
  intros [[e ->]|(src & dst & Hs & Hd & _ & ->)]; [done|].
  by apply moved_state_keeps.
Qed.

Lemma after_call_keeps (c : Call) (this : BankingState) :
  order (after_call c this) = order this
  /\ forall k, account_identity <$> accounts (after_call c this) !! k
             = account_identity <$> accounts this !! k.
Proof.
  destruct c as [input|from to amount tenant|n tenant|]; cbn [after_call].
  - eapply throws_or_moves_keeps, construct_and_process_outcome,
      tenant_processTransaction_outcome.
  - eapply throws_or_moves_keeps, tenant_transfer_outcome.
  - unfold TenantBankingService.getAccountBalance.
    destruct (Map_get n this) as [a|]; [|done].
    by destruct (TenantBankingService.strict_ne _ _).
  - done.
Qed.

Lemma after_plain_call_keeps (c : PlainCall) (this : BankingState) :
  order (after_plain_call c this) = order this
  /\ forall k, account_identity <$> accounts (after_plain_call c this) !! k
             = account_identity <$> accounts this !! k.
Proof.
  destruct c as [input|from to amount|n|]; cbn [after_plain_call].
  - eapply throws_or_moves_keeps, construct_and_process_outcome,
      plain_processTransaction_outcome.
  - eapply throws_or_moves_keeps, plain_transfer_outcome.
  - unfold BankingService.getAccountBalance. by destruct (Map_get n this).
  - done.
Qed.

Lemma after_calls_keep (calls : list Call) (this : BankingState) :
  order (after_calls calls this) = order this
  /\ forall k, account_identity <$> Map_get k (after_calls calls this)
             = account_identity <$> Map_get k this.
Proof.
  unfold Map_get. revert this. induction calls as [|c cs IH]; intros this; [done|].
  unfold after_calls in *. cbn [foldl].
  destruct (IH (after_call c this)) as [Ho Hi].
  destruct (after_call_keeps c this) as [Ho' Hi'].
  split; [congruence|]. intros k. by rewrite Hi, Hi'.
Qed.

Lemma after_plain_calls_keep (calls : list PlainCall) (this : BankingState) :
  order (after_plain_calls calls this) = order this
  /\ forall k, account_identity <$> Map_get k (after_plain_calls calls this)
             = account_identity <$> Map_get k this.
Proof.
  unfold Map_get. revert this. induction calls as [|c cs IH]; intros this; [done|].
  unfold after_plain_calls in *. cbn [foldl].
  destruct (IH (after_plain_call c this)) as [Ho Hi].
  destruct (after_plain_call_keeps c this) as [Ho' Hi'].
  split; [congruence|]. intros k. by rewrite Hi, Hi'.
Qed.

(** X5: no sequence of calls on the service (either revision) adds, removes
    or reorders accounts, and none changes an account's number or company:
    only balances are ever assigned. *)
Theorem calls_keep_accounts (this : BankingState) :
  (forall calls : list Call,
     order (after_calls calls this) = order this
     /\ forall k, account_identity <$> Map_get k (after_calls calls this)
                = account_identity <$> Map_get k this)
  /\ (forall calls : list PlainCall,
     order (after_plain_calls calls this) = order this
     /\ forall k, account_identity <$> Map_get k (after_plain_calls calls this)
                = account_identity <$> Map_get k this).
Proof.
  split; intros calls; [apply after_calls_keep|apply after_plain_calls_keep].
Qed.

End Outcomes.

(** ** The account list after any calls *)

Section AccountList.
Import AccountEntity.





End AccountList.

(** ** The other entry points *)

Section EntryPoints.
Import AccountEntity.

Lemma throws_or_moves_atomic (from to : string) (amount : number)
    (this : BankingState) (outcome : (Exception + unit) * BankingState) :
  throws_or_moves from to amount this outcome ->
  forall e this', outcome = (inl e, this') -> this' = this.
Proof.
  intros [[e0 ->]|(src & dst & _ & _ & _ & ->)] e this'; [by intros [= _ <-]|discriminate].
Qed.

(** X7: transfer (tenant-aware revision) checks the amount, then that both
    accounts exist, then their companies, then the funds; the first check
    that fails decides the exception, and whenever transfer throws, also from
    inside withdraw, the state is the one before the call. *)
Theorem transfer_validation_order (this : BankingState)
    (from to : string) (amount : number) (tenant : string) :
  let outcome := TenantBankingService.transfer from to amount tenant this in
  ((amount <=? 0)%float = true ->
     outcome = (inl (Error "Amount must be greater than 0"), this))
  /\ ((amount <=? 0)%float = false ->
      (Map_get from this = None ->
         outcome = (inl (AccountNotFoundError from), this))
      /\ (is_Some (Map_get from this) -> Map_get to this = None ->
         outcome = (inl (AccountNotFoundError to), this))
      /\ (forall src dst,
            Map_get from this = Some src -> Map_get to this = Some dst ->
            (getCompanyId src <> tenant ->
               outcome = (inl (CompanyMismatchError tenant (getCompanyId src)), this))
            /\ (getCompanyId src = tenant -> getCompanyId dst <> tenant ->
               outcome = (inl (CompanyMismatchError tenant (getCompanyId dst)), this))
            /\ (getCompanyId src = tenant -> getCompanyId dst = tenant ->
                (getBalance src <? amount)%float = true ->
                outcome = (inl (InsufficientFundsError (getAccountNumber src) amount
                                  (getBalance src)), this))))
  /\ (forall e this', outcome = (inl e, this') -> this' = this).
Proof.
  intros outcome. split_and!.
  - intros H. unfold outcome, TenantBankingService.transfer. by rewrite H.
  - intros H. unfold outcome, TenantBankingService.transfer. rewrite H. split_and!.
    + intros ->. by destruct (Map_get to this).
    + by intros [src ->] ->.
    + intros src dst -> ->. split_and!.
      * intros Hne. by rewrite (proj2 (strict_ne_true _ _) Hne).
      * intros Heq Hne.
        by rewrite (proj2 (strict_ne_false _ _) Heq), (proj2 (strict_ne_true _ _) Hne).
      * intros Hs Hd Hlt.
        by rewrite (proj2 (strict_ne_false _ _) Hs), (proj2 (strict_ne_false _ _) Hd), Hlt.
  - eapply throws_or_moves_atomic, tenant_transfer_outcome.
Qed.

Lemma transfer_validation_order_witness :
  TenantBankingService.transfer acctZ "0000000000000000" 0 "alpha-sales" test_service
    = (inl (Error "Amount must be greater than 0"), test_service)
  /\ TenantBankingService.transfer acctZ "0000000000000000" 5000 "alpha-sales" test_service
    = (inl (AccountNotFoundError "0000000000000000"), test_service)
  /\ TenantBankingService.transfer acctZ acctA 5000 "alpha-sales" test_service
    = (inl (CompanyMismatchError "alpha-sales" "beta-sales"), test_service)
  /\ TenantBankingService.transfer acctB acctA 1000 "alpha-sales" test_service
    = (inl (InsufficientFundsError acctB 1000 550), test_service).
Proof.
  split_and!.
  - pose proof (transfer_validation_order test_service acctZ "0000000000000000" 0
                  "alpha-sales") as H.
    cbn zeta in H. destruct H as (H & _). exact (H eq_refl).
  - pose proof (transfer_validation_order test_service acctZ "0000000000000000" 5000
                  "alpha-sales") as H.
    cbn zeta in H. destruct H as (_ & H & _). destruct (H eq_refl) as (_ & H' & _).
    apply H'; [by eexists|reflexivity].
  - pose proof (transfer_validation_order test_service acctZ acctA 5000 "alpha-sales") as H.
    cbn zeta in H. destruct H as (_ & H & _). destruct (H eq_refl) as (_ & _ & H').
    destruct (H' (mkAccount acctZ 1000 "beta-sales") (mkAccount acctA 5000 "alpha-sales")
                 eq_refl eq_refl) as (H'' & _).
    apply H''. discriminate.
  - pose proof (transfer_validation_order test_service acctB acctA 1000 "alpha-sales") as H.
    cbn zeta in H. destruct H as (_ & H & _). destruct (H eq_refl) as (_ & _ & H').
    destruct (H' (mkAccount acctB 550 "alpha-sales") (mkAccount acctA 5000 "alpha-sales")
                 eq_refl eq_refl) as (_ & _ & H'').
    apply H''; reflexivity.
Defined.

(** X8: the tenant-aware revision is the other revision behind a company
    check: processTransaction, transfer and getAccountBalance each either
    throw CompanyMismatchError, leaving the state as it was, or have exactly
    the outcome and the resulting state of the revision without companies. *)
Theorem tenant_revision_adds_company_check (this : BankingState) :
  (forall transaction : TransactionEntity.t,
     (exists actual,
        TenantBankingService.processTransaction transaction this
        = (inl (CompanyMismatchError (TransactionEntity.getCompanyId transaction) actual),
           this))
     \/ TenantBankingService.processTransaction transaction this
        = BankingService.processTransaction transaction this)
  /\ (forall (from to : string) (amount : number) (tenant : string),
     (exists actual,
        TenantBankingService.transfer from to amount tenant this
        = (inl (CompanyMismatchError tenant actual), this))
     \/ TenantBankingService.transfer from to amount tenant this
        = BankingService.transfer from to amount this)
  /\ (forall accountNumber tenant : string,
     (exists actual,
        TenantBankingService.getAccountBalance accountNumber tenant this
        = (inl (CompanyMismatchError tenant actual), this))
     \/ TenantBankingService.getAccountBalance accountNumber tenant this
        = BankingService.getAccountBalance accountNumber this).
Proof.
  split_and!.
  - intros transaction.
    unfold TenantBankingService.processTransaction, BankingService.processTransaction.
    destruct (Map_get _ this) as [src|]; [|by right].
    destruct (Map_get (TransactionEntity.getToAccount transaction) this) as [dst|];
      [|by right].
    destruct (_ || _); [left; eauto|by right].
  - intros from to amount tenant.
    unfold TenantBankingService.transfer, BankingService.transfer.
    destruct (amount <=? 0)%float; [by right|].
    destruct (Map_get from this) as [src|]; [|by right].
    destruct (Map_get to this) as [dst|]; [|by right].
    destruct (_ || _); [left; eauto|by right].
  - intros n tenant.
    unfold TenantBankingService.getAccountBalance, BankingService.getAccountBalance.
    destruct (Map_get n this) as [a|]; [|by right].
    destruct (TenantBankingService.strict_ne _ _); [left; eauto|by right].
Qed.

(** X9: in the revision without companies too, for every amount [> 0] and
    every pair of valid 16-digit account numbers, provided the source's
    balance (if the source exists) is not NaN, transfer(from, to, amount) has
    the outcome and the resulting state of constructing the transaction and
    calling processTransaction on it. *)
Theorem plain_transfer_refines_processTransaction (this : BankingState)
    (from to : string) (amount : number) (tenant : string) :
  valid_account_number from = true ->
  valid_account_number to = true ->
  (0 <? amount)%float = true ->
  (forall src, Map_get from this = Some src -> is_nan (getBalance src) = false) ->
  BankingService.transfer from to amount this
  = construct_and_process BankingService.processTransaction
      {| TransactionEntity.fromAccount := from; TransactionEntity.toAccount := to;
         TransactionEntity.amount := amount; TransactionEntity.companyId := tenant |}
      this.
Proof.
  intros Hf Ht Ha Hsrc. unfold construct_and_process.
  rewrite TransactionEntity_new_valid by done.
  destruct (ltb_not_nan _ _ Ha) as [H0 Hn].
  pose proof (ltb_negb_leb 0 amount H0 Hn) as E. rewrite Ha in E.
  unfold BankingService.transfer, BankingService.processTransaction.
  cbn [TransactionEntity.getFromAccount TransactionEntity.getToAccount
       TransactionEntity.getAmount TransactionEntity.transaction
       TransactionEntity.fromAccount TransactionEntity.toAccount TransactionEntity.amount].
  destruct (amount <=? 0)%float; [discriminate|].
  destruct (Map_get from this) as [src|] eqn:Hs; [|reflexivity].
  destruct (Map_get to this) as [dst|]; [|reflexivity].
  unfold canWithdraw, getBalance. fold (getBalance src).
  by rewrite (ltb_negb_leb (getBalance src) amount (Hsrc src eq_refl) Hn).
Qed.

Lemma plain_transfer_refines_processTransaction_witness :
  BankingService.transfer acctB acctA 1000 test_service
  = construct_and_process BankingService.processTransaction
      {| TransactionEntity.fromAccount := acctB; TransactionEntity.toAccount := acctA;
         TransactionEntity.amount := 1000; TransactionEntity.companyId := "" |}
      test_service.
Proof.
  apply plain_transfer_refines_processTransaction; try reflexivity.
  intros src Hsrc. vm_compute in Hsrc. by injection Hsrc as <-.
Defined.


End EntryPoints.


(** ** Transfers seen through the balance query *)

Section Queries.
Import AccountEntity.

Lemma moved_state_lookup (from to : string) (amount : number)
    (this : BankingState) (src dst : t) :
  from <> to ->
  Map_get from (moved_state from to amount this src dst)
    = Some (set_balance src (getBalance src - amount)%float)
  /\ Map_get to (moved_state from to amount this src dst)
    = Some (set_balance dst (getBalance dst + amount)%float)
  /\ forall k, k <> from -> k <> to ->
       Map_get k (moved_state from to amount this src dst) = Map_get k this.
Proof.
  intros Hne. unfold Map_get, moved_state, credited_object; cbn [accounts].
  destruct (decide (from = to)); [done|]. split_and!.
  - by rewrite lookup_insert_ne, lookup_insert_eq.
  - by rewrite lookup_insert_eq.
  - intros k Hkf Hkt. by rewrite !lookup_insert_ne.
Qed.

(** X11: after a transfer that succeeds between two different accounts
    (either entry point of either revision), the balance query returns the
    source's former balance minus the amount and the destination's former
    balance plus the amount (binary64 operations), returns for every other
    account what it returned before, and changes nothing itself. *)
Theorem balance_query_after_transfer (this this' : BankingState)
    (from to : string) (amount : number) (tenant : string) (src dst : t) :
  Map_get from this = Some src ->
  Map_get to this = Some dst ->
  from <> to ->
  TenantBankingService.transfer from to amount tenant this = (inr tt, this')
  \/ TenantBankingService.processTransaction (mkTransaction from to amount tenant) this
     = (inr tt, this')
  \/ BankingService.transfer from to amount this = (inr tt, this')
  \/ BankingService.processTransaction (mkTransaction from to amount tenant) this
     = (inr tt, this') ->
  BankingService.getAccountBalance from this'
    = (inr (getBalance src - amount)%float, this')
  /\ BankingService.getAccountBalance to this'
    = (inr (getBalance dst + amount)%float, this')
  /\ (getCompanyId src = tenant ->
      TenantBankingService.getAccountBalance from tenant this'
      = (inr (getBalance src - amount)%float, this'))
  /\ (getCompanyId dst = tenant ->
      TenantBankingService.getAccountBalance to tenant this'
      = (inr (getBalance dst + amount)%float, this'))
  /\ (forall k, k <> from -> k <> to ->
      fst (BankingService.getAccountBalance k this')
      = fst (BankingService.getAccountBalance k this)
      /\ forall c, fst (TenantBankingService.getAccountBalance k c this')
                 = fst (TenantBankingService.getAccountBalance k c this)).
Proof.
  intros Hs Hd Hne Hrun.
  assert (Hmoved : this' = moved_state from to amount this src dst).
  { assert (Hgen : forall outcome, throws_or_moves from to amount this outcome ->
                     outcome = (inr tt, this') ->
                     this' = moved_state from to amount this src dst).
    { intros outcome [[e ->]|(src0 & dst0 & Hs0 & Hd0 & _ & ->)]; [discriminate|].
      intros [= <-]. congruence. }
    destruct Hrun as [Hrun|[Hrun|[Hrun|Hrun]]]; eapply Hgen; try exact Hrun.
    - apply tenant_transfer_outcome.
    - apply (tenant_processTransaction_outcome this (mkTransaction from to amount tenant)).
    - apply plain_transfer_outcome.
    - apply (plain_processTransaction_outcome this (mkTransaction from to amount tenant)). }
  destruct (moved_state_lookup from to amount this src dst Hne) as (Hf & Ht & Hother).
  rewrite <- Hmoved in Hf, Ht, Hother.
  unfold BankingService.getAccountBalance, TenantBankingService.getAccountBalance.
  rewrite Hf, Ht. split_and!; try done.
  - intros Hc.
    by rewrite (proj2 (strict_ne_false
                         (getCompanyId (set_balance src (getBalance src - amount)%float))
                         tenant) Hc).
  - intros Hc.
    by rewrite (proj2 (strict_ne_false
                         (getCompanyId (set_balance dst (getBalance dst + amount)%float))
                         tenant) Hc).
  - intros k Hkf Hkt. rewrite (Hother k Hkf Hkt). split; [by destruct (Map_get k this)|].
    intros c. destruct (Map_get k this) as [a|]; [|done].
    by destruct (TenantBankingService.strict_ne _ _).
Qed.

Lemma balance_query_after_transfer_witness :
  BankingService.getAccountBalance acctA
    (snd (BankingService.transfer acctA acctB 500 test_service))
  = (inr 4500%float, snd (BankingService.transfer acctA acctB 500 test_service))
  /\ BankingService.getAccountBalance acctB
    (snd (BankingService.transfer acctA acctB 500 test_service))
  = (inr 1050%float, snd (BankingService.transfer acctA acctB 500 test_service)).
Proof.
  destruct (balance_query_after_transfer test_service
              (snd (BankingService.transfer acctA acctB 500 test_service))
              acctA acctB 500 ""
              (mkAccount acctA 5000 "alpha-sales") (mkAccount acctB 550 "alpha-sales")
              eq_refl eq_refl ltac:(discriminate))
    as (Ha & Hb & _).
  - right; right; left. vm_compute. reflexivity.
  - split; [exact Ha|exact Hb].
Defined.

End Queries.

(** ** Non-negative balances in the revision without companies *)

Section PlainInvariant.
Import AccountEntity.

Lemma moved_state_nonneg (from to : string) (amount : number)
    (this : BankingState) (src dst : t) :
  balances_nonnegative this ->
  Map_get from this = Some src -> Map_get to this = Some dst ->
  canWithdraw src amount = true ->
  (amount <=? 0)%float = false ->
  (amount =? infinity)%float = false ->
  balances_nonnegative (moved_state from to amount this src dst).
Proof.
  intros Hinv Hs Hd Hc Hpos Hfin.
  pose proof (debit_credit_nonneg from to amount this src dst Hinv Hs Hd Hc Hpos Hfin) as H.
  by rewrite (debit_credit_moved _ _ _ _ _ _ Hs Hd Hc) in H.
Qed.

Lemma throws_or_moves_nonneg (from to : string) (amount : number)
    (this : BankingState) (outcome : (Exception + unit) * BankingState) :
  balances_nonnegative this ->
  (amount <=? 0)%float = false \/ fst outcome <> inr tt ->
  (amount =? infinity)%float = false ->
  throws_or_moves from to amount this outcome ->
  balances_nonnegative (snd outcome).
Proof.
  intros Hinv Hpos Hfin [[e ->]|(src & dst & Hs & Hd & Hc & ->)]; [done|].
  destruct Hpos as [Hpos|Hne]; [|by destruct Hne]. by apply moved_state_nonneg.
Qed.

Lemma after_plain_call_nonneg (c : PlainCall) (this : BankingState) :
  balances_nonnegative this ->
  (forall a, plain_call_amount c = Some a -> (a =? infinity)%float = false) ->
  balances_nonnegative (after_plain_call c this).
Proof.
  intros Hinv Hfin. destruct c as [input|from to amount|n|]; cbn [after_plain_call].
  - unfold construct_and_process.
    destruct (TransactionEntity.new input) as [e|transaction] eqn:Hnew; [done|].
    apply TransactionEntity_new_inv in Hnew as (-> & _ & Hpos).
    eapply throws_or_moves_nonneg; [done|by left| |apply plain_processTransaction_outcome].
    by apply Hfin.
  - eapply throws_or_moves_nonneg; [done| |by apply Hfin|apply plain_transfer_outcome].
    unfold BankingService.transfer.
    destruct (amount <=? 0)%float; [right; discriminate|by left].
  - unfold BankingService.getAccountBalance. by destruct (Map_get n this).
  - done.
Qed.

(** X12: in the revision without companies as well, for every ledger built
    from accounts that passed the validating constructor and every sequence
    of processTransaction (on transactions that passed their constructor),
    transfer, getAccountBalance and getAllAccounts calls in which no amount is
    +Infinity, every balance compares [>= 0] after every call. *)
Theorem plain_balances_stay_nonnegative
    (inputs : list Account) (entities : list t) (calls : list PlainCall) :
  construct_accounts inputs = inr entities ->
  finite_plain_amounts calls ->
  forall n,
    balances_nonnegative (after_plain_calls (take n calls) (BankingService_new entities)).
Proof.
  intros Hnew Hfin n.
  assert (Hgen : forall cs this, balances_nonnegative this -> finite_plain_amounts cs ->
                   balances_nonnegative (after_plain_calls cs this)).
  { unfold after_plain_calls. induction cs as [|c cs IH]; intros this Hinv Hf; [done|].
    cbn [foldl]. apply IH.
    - apply after_plain_call_nonneg; [done|]. intros a. apply Hf. by left.
    - intros c' a Hin. apply Hf. by right. }
  apply Hgen.
  - by apply BankingService_new_nonneg, (construct_accounts_nonneg inputs).
  - intros c a Hin. apply Hfin. rewrite <- (take_drop n calls).
    apply elem_of_app. by left.
Qed.

Lemma plain_balances_stay_nonnegative_witness :
  balances_nonnegative
    (after_plain_calls
       [ plain_transfer acctA acctB 5000; plain_transfer acctA acctB 1 ]
       (BankingService_new
          [ mkAccount acctA 5000 "alpha-sales"; mkAccount acctB 550 "alpha-sales" ])).
Proof.
  refine (plain_balances_stay_nonnegative
            [ {| accountNumber := acctA; balance := 5000; companyId := "alpha-sales" |};
              {| accountNumber := acctB; balance := 550; companyId := "alpha-sales" |} ]
            _ [ plain_transfer acctA acctB 5000; plain_transfer acctA acctB 1 ]
            eq_refl _ 2%nat).
  intros c a Hin Hc.
  repeat (apply elem_of_cons in Hin as [->|Hin];
          [cbn in Hc; first [discriminate Hc|by injection Hc as <-]|]).
  by apply elem_of_nil in Hin.
Defined.

End PlainInvariant.

(** ** The file reader *)

Section ReaderProperties.
Import AccountEntity.
Variable read_records : string -> string + list (list string).
Variable parseFloat : string -> number.
Variable message : Exception -> string.

Lemma AccountEntity_new_spec (input : Account) (a : t) :
  new input = inr a <->
  valid_account_number (accountNumber input) = true
  /\ (0 <=? balance input)%float = true
  /\ a = {| account := input |}.
Proof.
  unfold new, AccountSchema_parse.
  destruct (zod_result_cases
              (check_account_number "accountNumber" (accountNumber input)
               ++ check_min0 "balance" (balance input)) input) as [[Hnil ->]|[Hne ->]].
  - apply app_eq_nil in Hnil as [Hnum Hbal].
    apply check_account_number_inv in Hnum. apply check_min0_nil in Hbal.
    split; [by intros [= <-]|by intros (_ & _ & ->)].
  - split; [discriminate|]. intros (Hnum & Hbal & _). destruct Hne.
    by rewrite (check_account_number_valid _ _ Hnum), (proj2 (check_min0_nil _ _) Hbal).
Qed.

Lemma TransactionEntity_new_spec (input : TransactionEntity.Transaction)
    (transaction : TransactionEntity.t) :
  TransactionEntity.new input = inr transaction <->
  valid_account_number (TransactionEntity.fromAccount input) = true
  /\ valid_account_number (TransactionEntity.toAccount input) = true
  /\ (0 <? TransactionEntity.amount input)%float = true
  /\ transaction = {| TransactionEntity.transaction := input |}.
Proof.
  split.
  - intros Hnew. pose proof Hnew as (-> & _ & _)%TransactionEntity_new_inv.
    unfold TransactionEntity.new, TransactionEntity.TransactionSchema_parse in Hnew.
    destruct (zod_result _ input) as [e|parsed] eqn:E; [discriminate|].
    apply zod_result_inr in E as [Hissues _].
    apply app_eq_nil in Hissues as [Hf Hissues].
    apply app_eq_nil in Hissues as [Ht Ha].
    apply check_account_number_inv in Hf, Ht. by apply check_positive_nil in Ha.
  - intros (Hf & Ht & Ha & ->). by apply TransactionEntity_new_valid.
Qed.

Lemma account_of_record_inr (filePath companyId : string) (record : list string)
    (index : nat) (a : t) :
  FileReaderService.account_of_record parseFloat filePath companyId record index = inr a <->
  account_row_ok parseFloat record = true
  /\ a = mkAccount (nth 0 record "") (parseFloat (nth 1 record "")) companyId.
Proof.
  unfold FileReaderService.account_of_record, account_row_ok.
  destruct record as [|n [|b [|c rest]]]; cbn [length Nat.eqb negb nth];
    try (split; [discriminate|by intros [? _]]).
  destruct (is_nan (parseFloat b)) eqn:Hn.
  - split; [discriminate|]. intros [[_ Hle]%andb_true_iff _].
    apply leb_not_nan in Hle as [_ ?]. congruence.
  - destruct (new _) as [e|a'] eqn:Hnew.
    + split; [discriminate|]. intros [[Hv Hle]%andb_true_iff _].
      assert (Hok : new {| accountNumber := n; balance := parseFloat b;
                           companyId := companyId |}
                    = inr (mkAccount n (parseFloat b) companyId))
        by (by apply AccountEntity_new_spec).
      congruence.
    + apply AccountEntity_new_spec in Hnew as (Hv & Hle & ->). cbn in Hv, Hle.
      rewrite Hv, Hle. split; [by intros [= <-]|by intros [_ ->]].
Qed.

Lemma transaction_of_record_inr (filePath companyId : string) (record : list string)
    (index : nat) (transaction : TransactionEntity.t) :
  FileReaderService.transaction_of_record parseFloat filePath companyId record index
  = inr transaction <->
  transaction_row_ok parseFloat record = true
  /\ transaction = mkTransaction (nth 0 record "") (nth 1 record "")
                     (parseFloat (nth 2 record "")) companyId.
Proof.
  unfold FileReaderService.transaction_of_record, transaction_row_ok.
  destruct record as [|f [|t [|a [|c rest]]]]; cbn [length Nat.eqb negb nth];
    try (split; [discriminate|by intros [? _]]).
  destruct (is_nan (parseFloat a)) eqn:Hn.
  - split; [discriminate|]. intros [[_ Hlt]%andb_true_iff _].
    apply ltb_not_nan in Hlt as [_ ?]. congruence.
  - destruct (TransactionEntity.new _) as [e|tx] eqn:Hnew.
    + split; [discriminate|]. intros [[[Hf Ht]%andb_true_iff Hlt]%andb_true_iff _].
      assert (Hok : TransactionEntity.new
                      {| TransactionEntity.fromAccount := f;
                         TransactionEntity.toAccount := t;
                         TransactionEntity.amount := parseFloat a;
                         TransactionEntity.companyId := companyId |}
                    = inr (mkTransaction f t (parseFloat a) companyId))
        by (by apply TransactionEntity_new_spec).
      congruence.
    + apply TransactionEntity_new_spec in Hnew as (Hf & Ht & Hlt & ->).
      cbn in Hf, Ht, Hlt. rewrite Hf, Ht, Hlt.
      split; [by intros [= <-]|by intros [_ ->]].
Qed.

Lemma map_records_inr {B} (callback : list string -> nat -> FileReaderService.Thrown + B)
    (ok : list string -> bool) (entity : list string -> B) :
  (forall record index b, callback record index = inr b <-> ok record = true /\ b = entity record) ->
  forall records index bs,
    FileReaderService.map_records callback index records = inr bs <->
    forallb ok records = true /\ bs = entity <$> records.
Proof.
  intros Hcb. induction records as [|record rest IH]; intros index bs; cbn.
  - split; [by intros [= <-]|by intros [_ ->]].
  - destruct (callback record index) as [t|b] eqn:Hb.
    + split; [discriminate|]. intros [[Hok _]%andb_true_iff _].
      assert (callback record index = inr (entity record)) by (by apply Hcb).
      congruence.
    + apply Hcb in Hb as [Hok ->]. rewrite Hok. cbn.
      destruct (FileReaderService.map_records callback (S index) rest) as [t|bs'] eqn:Hrest.
      * split; [discriminate|]. intros [Hall ->].
        assert (FileReaderService.map_records callback (S index) rest
                = inr (entity <$> rest)) by (by apply IH).
        congruence.
      * apply IH in Hrest as [Hall ->]. rewrite Hall.
        split; [by intros [= <-]|by intros [_ ->]].
Qed.

Lemma map_records_first_throw {B}
    (callback : list string -> nat -> FileReaderService.Thrown + B)
    (good : list (list string)) (bad : list string) (rest : list (list string))
    (index : nat) (t : FileReaderService.Thrown) :
  Forall (fun record => forall i, exists b, callback record i = inr b) good ->
  callback bad (index + length good) = inl t ->
  FileReaderService.map_records callback index (good ++ bad :: rest)%list = inl t.
Proof.
  revert index. induction good as [|record good IH]; intros index Hgood Hbad; cbn.
  - rewrite Nat.add_0_r in Hbad. by rewrite Hbad.
  - inversion Hgood as [|? ? Hrec Hgood']; subst.
    destruct (Hrec index) as [b ->].
    rewrite (IH (S index)); [done|done|].
    cbn in Hbad. by rewrite Nat.add_succ_r in Hbad.
Qed.

Lemma read_with_inr {B} (callback : list string -> nat -> FileReaderService.Thrown + B)
    (ok : list string -> bool) (entity : list string -> B) (filePath : string)
    (bs : list B) :
  (forall record index b,
     callback record index = inr b <-> ok record = true /\ b = entity record) ->
  FileReaderService.read_with read_records message callback filePath = inr bs <->
  exists records,
    read_records filePath = inr records
    /\ forallb ok records = true
    /\ bs = entity <$> records.
Proof.
  intros Hcb. unfold FileReaderService.read_with.
  destruct (read_records filePath) as [msg|records].
  - split; [discriminate|]. by intros (? & ? & _).
  - pose proof (map_records_inr callback ok entity Hcb records 0%nat) as Hmap.
    destruct (FileReaderService.map_records _ 0 records) as [t|bs'].
    + split; [discriminate|]. intros (records' & [= <-] & Hok & ->).
      discriminate (proj2 (Hmap _) (conj Hok eq_refl)).
    + split.
      * intros [= <-]. exists records. by destruct (proj1 (Hmap bs') eq_refl) as [? ->].
      * intros (records' & [= <-] & Hok & ->). f_equal.
        by destruct (proj1 (Hmap bs') eq_refl) as [_ ->].
Qed.

Lemma read_with_first_throw {B}
    (callback : list string -> nat -> FileReaderService.Thrown + B)
    (filePath : string) (good : list (list string)) (bad : list string)
    (rest : list (list string)) (t : FileReaderService.Thrown) :
  read_records filePath = inr (good ++ bad :: rest)%list ->
  Forall (fun record => forall i, exists b, callback record i = inr b) good ->
  callback bad (length good) = inl t ->
  FileReaderService.read_with read_records message callback filePath
  = inl (FileReaderService.catch message filePath t).
Proof.
  intros Hread Hgood Hbad. unfold FileReaderService.read_with. rewrite Hread.
  by rewrite (map_records_first_throw callback good bad rest 0 t Hgood Hbad).
Qed.

Lemma forallb_callback {B} (callback : list string -> nat -> FileReaderService.Thrown + B)
    (ok : list string -> bool) (entity : list string -> B) (good : list (list string)) :
  (forall record index b,
     callback record index = inr b <-> ok record = true /\ b = entity record) ->
  forallb ok good = true ->
  Forall (fun record => forall i, exists b, callback record i = inr b) good.
Proof.
  intros Hcb Hgood. induction good as [|record good IH]; [by constructor|].
  cbn in Hgood. apply andb_true_iff in Hgood as [Hok Hgood].
  constructor; [|by apply IH].
  intros i. exists (entity record). by apply Hcb.
Qed.


Lemma TransactionEntity_new_inl (input : TransactionEntity.Transaction) (e : Exception) :
  TransactionEntity.new input = inl e -> exists issues, issues <> [] /\ e = ZodError issues.
Proof.
  unfold TransactionEntity.new, TransactionEntity.TransactionSchema_parse.
  destruct (zod_result_cases
              (check_account_number "fromAccount" (TransactionEntity.fromAccount input)
               ++ check_account_number "toAccount" (TransactionEntity.toAccount input)
               ++ check_positive "amount" (TransactionEntity.amount input)) input)
    as [[_ ->]|[Hne ->]].
  - discriminate.
  - intros [= <-]. eauto.
Qed.

(** X13: readAccountBalances returns a list exactly when the file can be
    read and parsed and every row has two columns, a 16-digit account number
    and a balance that parseFloat reads as a number [>= 0]; the list then has
    one account per row, in file order, with the row's number, the parsed
    balance and the company given.  An empty file gives the empty list. *)
Theorem readAccountBalances_returns (filePath companyId : string) (accounts : list t) :
  FileReaderService.readAccountBalances read_records parseFloat message filePath companyId
  = inr accounts <->
  exists records,
    read_records filePath = inr records
    /\ forallb (account_row_ok parseFloat) records = true
    /\ accounts = (fun record => mkAccount (nth 0 record "") (parseFloat (nth 1 record ""))
                                   companyId) <$> records.
Proof.
  apply (read_with_inr
           (FileReaderService.account_of_record parseFloat filePath companyId)
           (account_row_ok parseFloat)
           (fun record => mkAccount (nth 0 record "") (parseFloat (nth 1 record ""))
                            companyId)).
  apply account_of_record_inr.
Qed.

(** X14: readTransactions returns a list exactly when the file can be read
    and parsed and every row has three columns, two 16-digit account numbers
    and an amount that parseFloat reads as a number [> 0]; the list then has
    one transaction per row, in file order, with the row's numbers, the
    parsed amount and the company given. *)
Theorem readTransactions_returns (filePath companyId : string)
    (transactions : list TransactionEntity.t) :
  FileReaderService.readTransactions read_records parseFloat message filePath companyId
  = inr transactions <->
  exists records,
    read_records filePath = inr records
    /\ forallb (transaction_row_ok parseFloat) records = true
    /\ transactions
       = (fun record => mkTransaction (nth 0 record "") (nth 1 record "")
                          (parseFloat (nth 2 record "")) companyId) <$> records.
Proof.
  apply (read_with_inr
           (FileReaderService.transaction_of_record parseFloat filePath companyId)
           (transaction_row_ok parseFloat)
           (fun record => mkTransaction (nth 0 record "") (nth 1 record "")
                            (parseFloat (nth 2 record "")) companyId)).
  apply transaction_of_record_inr.
Qed.


(** X16: when the transactions file parses and its first row that is not an
    acceptable transaction row comes after [good], readTransactions throws
    for that row and looks at no later row: a row without exactly three
    columns and an amount that parseFloat reads as NaN give an
    InvalidCsvFormatError that names the 1-based line; a row that parses but
    fails the transaction schema (an account number not 16 digits, an amount
    not above 0) gives a FileSystemError of operation 'read' carrying the
    ZodError's message. *)
Theorem readTransactions_first_bad_row (filePath companyId : string)
    (good : list (list string)) (bad : list string) (rest : list (list string)) :
  read_records filePath = inr (good ++ bad :: rest)%list ->
  forallb (transaction_row_ok parseFloat) good = true ->
  transaction_row_ok parseFloat bad = false ->
  let result :=
    FileReaderService.readTransactions read_records parseFloat message filePath
      companyId in
  (length bad <> 3%nat ->
     result = inl (InvalidCsvFormatError filePath
                     ("Line " +:+ pretty (length good + 1)%nat
                      +:+ ": Expected 3 columns (from, to, amount), got "
                      +:+ pretty (length bad))))
  /\ (length bad = 3%nat -> is_nan (parseFloat (nth 2 bad "")) = true ->
      result = inl (InvalidCsvFormatError filePath
                      ("Line " +:+ pretty (length good + 1)%nat
                       +:+ ": Invalid amount format: " +:+ nth 2 bad "")))
  /\ (length bad = 3%nat -> is_nan (parseFloat (nth 2 bad "")) = false ->
      exists issues,
        issues <> []
        /\ result = inl (FileSystemError filePath "read" (message (ZodError issues)))).
Proof.
  intros Hread Hgood Hbad result.
  pose proof (forallb_callback _ _ _ good (transaction_of_record_inr filePath companyId)
                Hgood) as Hg.
  pose proof (fun t => read_with_first_throw
                (FileReaderService.transaction_of_record parseFloat filePath companyId)
                filePath good bad rest t Hread Hg) as Hthrow.
  unfold result, FileReaderService.readTransactions.
  split_and!.
  - intros Hlen. apply Nat.eqb_neq in Hlen.
    etransitivity;
      [apply Hthrow; unfold FileReaderService.transaction_of_record; by rewrite Hlen|done].
  - intros Hlen Hnan. apply Nat.eqb_eq in Hlen.
    etransitivity;
      [apply Hthrow; unfold FileReaderService.transaction_of_record; rewrite Hlen; cbn [negb];
       by rewrite Hnan|done].
  - intros Hlen Hnan. apply Nat.eqb_eq in Hlen.
    assert (Hrow : FileReaderService.transaction_of_record parseFloat filePath companyId
                     bad (length good)
                   = match TransactionEntity.new
                             {| TransactionEntity.fromAccount := nth 0 bad "";
                                TransactionEntity.toAccount := nth 1 bad "";
                                TransactionEntity.amount := parseFloat (nth 2 bad "");
                                TransactionEntity.companyId := companyId |} with
                     | inl e => inl (FileReaderService.thrown_Exception e)
                     | inr tx => inr tx
                     end).
    { unfold FileReaderService.transaction_of_record. rewrite Hlen. cbn [negb].
      by rewrite Hnan. }
    destruct (TransactionEntity.new _) as [e|tx] eqn:Hnew.
    + apply TransactionEntity_new_inl in Hnew as (issues & Hne & ->).
      exists issues. split; [done|]. by rewrite (Hthrow _ Hrow).
    + apply transaction_of_record_inr in Hrow as [Hok _]. congruence.
Qed.

(** X17: accounts and transactions read for the same company never meet a
    company mismatch: on the tenant-aware service built from the accounts
    read, after any sequence of calls, processTransaction on a transaction
    read never throws CompanyMismatchError. *)
Theorem same_company_files_never_mismatch
    (accountsPath transactionsPath companyId : string)
    (accounts : list t) (transactions : list TransactionEntity.t) (calls : list Call)
    (transaction : TransactionEntity.t) (expected actual : string) :
  FileReaderService.readAccountBalances read_records parseFloat message accountsPath
    companyId = inr accounts ->
  FileReaderService.readTransactions read_records parseFloat message transactionsPath
    companyId = inr transactions ->
  transaction ∈ transactions ->
  fst (TenantBankingService.processTransaction transaction
         (after_calls calls (BankingService_new accounts)))
  <> inl (CompanyMismatchError expected actual).
Proof.
  intros Haccounts Htransactions Hin.
  apply (read_with_inr _ _ _ _ _ (account_of_record_inr accountsPath companyId))
    in Haccounts as (arecords & _ & _ & ->).
  apply (read_with_inr _ _ _ _ _ (transaction_of_record_inr transactionsPath companyId))
    in Htransactions as (trecords & _ & _ & ->).
  apply list_elem_of_fmap in Hin as (trecord & -> & _).
  set (l := (fun record => mkAccount (nth 0 record "") (parseFloat (nth 1 record ""))
                             companyId) <$> arecords).
  assert (Hcompany : forall k a,
            Map_get k (after_calls calls (BankingService_new l)) = Some a ->
            getCompanyId a = companyId).
  { intros k a Ha.
    destruct (after_calls_keep calls (BankingService_new l)) as [_ Hi].
    specialize (Hi k). rewrite Ha, BankingService_new_lookup in Hi. cbn in Hi.
    destruct (last _) as [a0|] eqn:Hlast; [|discriminate].
    injection Hi as _ ->.
    apply last_Some_elem_of, list_elem_of_filter in Hlast as [_ Ha0].
    by apply list_elem_of_fmap in Ha0 as (arecord & -> & _). }
  unfold TenantBankingService.processTransaction.
  cbn [TransactionEntity.getFromAccount TransactionEntity.getToAccount
       TransactionEntity.getAmount TransactionEntity.getCompanyId
       TransactionEntity.transaction mkTransaction TransactionEntity.fromAccount
       TransactionEntity.toAccount TransactionEntity.amount TransactionEntity.companyId].
  destruct (Map_get (nth 0 trecord "") _) as [src|] eqn:Hs; [|done].
  destruct (Map_get (nth 1 trecord "") _) as [dst|] eqn:Hd; [|done].
  rewrite (Hcompany _ _ Hs), (Hcompany _ _ Hd).
  rewrite (proj2 (strict_ne_false companyId companyId) eq_refl). cbn [orb].
  destruct (canWithdraw src _) eqn:Hc; cbn [negb]; [|done].
  by rewrite (debit_credit_moved _ _ _ _ _ _ Hs Hd Hc).
Qed.

End ReaderProperties.


Lemma readTransactions_first_bad_row_witness :
  FileReaderService.readTransactions
    (fun _ => inr [[acctA; acctB; "500.00"]; [acctB; acctA; "abc"]])
    (fun s => if String.eqb s "500.00" then 500%float else nan) (fun _ => "invalid")
    "transactions.csv" "company-1"
  = inl (InvalidCsvFormatError "transactions.csv" "Line 2: Invalid amount format: abc").
Proof.
  pose proof (readTransactions_first_bad_row
                (fun _ => inr [[acctA; acctB; "500.00"]; [acctB; acctA; "abc"]])
                (fun s => if String.eqb s "500.00" then 500%float else nan)
                (fun _ => "invalid") "transactions.csv" "company-1"
                [[acctA; acctB; "500.00"]] [acctB; acctA; "abc"] []
                eq_refl eq_refl eq_refl) as H.
  cbn zeta in H. destruct H as (_ & H & _). apply H; reflexivity.
Defined.

Lemma same_company_files_never_mismatch_witness :
  fst (TenantBankingService.processTransaction (mkTransaction acctA acctB 500 "company-1")
         (after_calls [] (BankingService_new
                            [mkAccount acctA 5000 "company-1";
                             mkAccount acctB 5000 "company-1"])))
  <> inl (CompanyMismatchError "company-1" "company-2").
Proof.
  apply (same_company_files_never_mismatch
           (fun path => if String.eqb path "accounts.csv"
                        then inr [[acctA; "5000.00"]; [acctB; "5000.00"]]
                        else inr [[acctA; acctB; "500.00"]])
           (fun s => if String.eqb s "500.00" then 500%float else 5000%float)
           (fun _ => "invalid") "accounts.csv" "transactions.csv" "company-1"
           [mkAccount acctA 5000 "company-1"; mkAccount acctB 5000 "company-1"]
           [mkTransaction acctA acctB 500 "company-1"]).
  - reflexivity.
  - reflexivity.
  - left.
Defined.

(** ** The loop of the entry point *)

Section LoopProperties.
Variable toFixed2 : number -> string.
Variable message : Exception -> string.

Lemma process_all_app (before after : list TransactionEntity.t) (this : BankingState) :
  process_all toFixed2 message (before ++ after)%list this
  = (fst (process_all toFixed2 message before this)
     ++ fst (process_all toFixed2 message after
               (snd (process_all toFixed2 message before this))),
     snd (process_all toFixed2 message after
            (snd (process_all toFixed2 message before this))))%list.
Proof.
  revert this. induction before as [|transaction before IH]; intros this; cbn.
  - by destruct (process_all toFixed2 message after this).
  - destruct (process_and_report toFixed2 message transaction this) as [line this'].
    rewrite IH.
    by destruct (process_all toFixed2 message before this') as [lines this''].
Qed.

(** X18: a transaction that processTransaction refuses neither stops the loop
    of the entry point nor changes the ledger: the loop prints the one line
    'Failed to process transaction: ' with the error's message for it, and
    every other line and the final ledger are those of the run without that
    transaction. *)
Theorem failed_transaction_is_skipped (before after : list TransactionEntity.t)
    (transaction : TransactionEntity.t) (this : BankingState) (e : Exception) :
  fst (BankingService.processTransaction transaction
         (snd (process_all toFixed2 message before this))) = inl e ->
  let without := process_all toFixed2 message (before ++ after)%list this in
  process_all toFixed2 message (before ++ transaction :: after)%list this
  = (take (length before) (fst without)
     ++ console_error ("Failed to process transaction: " +:+ message e)
     :: drop (length before) (fst without),
     snd without)%list.
Proof.
  intros Hfail without. unfold without. rewrite !process_all_app.
  set (s1 := snd (process_all toFixed2 message before this)) in *.
  assert (Hlen : length (fst (process_all toFixed2 message before this)) = length before).
  { clear. revert this. induction before as [|t before IH]; intros this; cbn; [done|].
    destruct (process_and_report toFixed2 message t this) as [line this'].
    specialize (IH this').
    destruct (process_all toFixed2 message before this') as [lines this'']. cbn in *.
    by rewrite IH. }
  cbn [fst snd]. rewrite <- Hlen, take_app_length, drop_app_length.
  cbn [process_all]. unfold process_and_report.
  destruct (plain_processTransaction_outcome s1 transaction)
    as [(e' & He)|(src & dst & _ & _ & _ & Hmoved)].
  - rewrite He in Hfail |- *. cbn in Hfail. injection Hfail as ->.
    by destruct (process_all toFixed2 message after s1).
  - rewrite Hmoved in Hfail. discriminate Hfail.
Qed.

End LoopProperties.

Lemma failed_transaction_is_skipped_witness :
  process_all (fun _ => "500.00") (fun _ => "Account not found")
    [mkTransaction acctA acctB 500 ""; mkTransaction "0000000000000000" acctB 500 "";
     mkTransaction acctB acctA 500 ""]
    test_service
  = (take 1 (fst (process_all (fun _ => "500.00") (fun _ => "Account not found")
                    [mkTransaction acctA acctB 500 ""; mkTransaction acctB acctA 500 ""]
                    test_service))
     ++ console_error "Failed to process transaction: Account not found"
     :: drop 1 (fst (process_all (fun _ => "500.00") (fun _ => "Account not found")
                       [mkTransaction acctA acctB 500 ""; mkTransaction acctB acctA 500 ""]
                       test_service)),
     snd (process_all (fun _ => "500.00") (fun _ => "Account not found")
            [mkTransaction acctA acctB 500 ""; mkTransaction acctB acctA 500 ""]
            test_service))%list.
Proof.
  apply (failed_transaction_is_skipped (fun _ => "500.00") (fun _ => "Account not found")
           [mkTransaction acctA acctB 500 ""] [mkTransaction acctB acctA 500 ""]
           (mkTransaction "0000000000000000" acctB 500 "") test_service
           (AccountNotFoundError "0000000000000000")).
  vm_compute. reflexivity.
Defined.
